(** * Row-wise translation driver of the Thai-to-English notebook

    A shallow embedding of [translate_column] (notebook [main.ipynb]) and of
    the two driver cells that call it, together with the properties of the
    translation loop: alignment of the result with the input column, abort on
    the first failure, progress notifications, prompt rendering, trimming of
    responses, the frame condition on the dataframes and the safety policy
    sent with every request.

    Python values are modelled as follows.
    - [str] is a list of Unicode code points ([N]), because [str.strip] and
      [str.format] work on code points, not on bytes.
    - [tqdm] only wraps the iteration over the column and draws a progress
      bar on standard error; it is left out.
    - Exceptions are values of [exn]; a computation returns [exn + A] together
      with the world it leaves behind (what was printed and requested before
      an exception stays printed and requested).
    - Dataframes live in a store indexed by references, because Python passes
      the dataframe object itself to [translate_column]. *)

From Stdlib Require Import NArith ZArith Lia Ascii String.
From stdpp Require Import base list numbers strings pretty gmap.

Local Open Scope N_scope.

(** ** Python strings *)

Abbreviation char := N (only parsing).
Abbreviation str := (list N) (only parsing).

Module Utf8.

(** Source literals are written as UTF-8 text; [decode] turns their bytes
    into the code points Python sees.  Ill-formed tails are dropped (the
    literals of this file are well formed). *)

Definition byte_of (a : ascii) : N := N_of_ascii a.

Fixpoint bytes (s : string) : list N :=
  match s with
  | EmptyString => []
  | String a r => byte_of a :: bytes r
  end.

Definition cont (b : N) : N := N.land b 63.

Fixpoint decode_bytes (bs : list N) : str :=
  match bs with
  | [] => []
  | b0 :: r0 =>
    if b0 <? 128 then b0 :: decode_bytes r0
    else if b0 <? 224 then
      match r0 with
      | b1 :: r1 =>
        N.lor (N.shiftl (N.land b0 31) 6) (cont b1) :: decode_bytes r1
      | _ => []
      end
    else if b0 <? 240 then
      match r0 with
      | b1 :: b2 :: r2 =>
        N.lor (N.shiftl (N.land b0 15) 12)
              (N.lor (N.shiftl (cont b1) 6) (cont b2)) :: decode_bytes r2
      | _ => []
      end
    else
      match r0 with
      | b1 :: b2 :: b3 :: r3 =>
        N.lor (N.shiftl (N.land b0 7) 18)
              (N.lor (N.shiftl (cont b1) 12)
                     (N.lor (N.shiftl (cont b2) 6) (cont b3)))
          :: decode_bytes r3
      | _ => []
      end
  end.

Definition decode (s : string) : str := decode_bytes (bytes s).

End Utf8.

Notation "'u8' s" := (Utf8.decode s) (at level 1, s at level 0, only parsing).

Fixpoint str_eqb (a b : str) : bool :=
  match a, b with
  | [], [] => true
  | x :: a', y :: b' => (x =? y) && str_eqb a' b'
  | _, _ => false
  end.

(** *** [str.isspace] on one code point and [str.strip]

    CPython's [str.strip()] without argument removes the code points for which
    [Py_UNICODE_ISSPACE] holds: bidirectional classes WS, B and S and general
    category Zs. *)

Definition isspace (c : char) : bool :=
  ((9 <=? c) && (c <=? 13))          (* \t \n \v \f \r *)
  || ((28 <=? c) && (c <=? 32))      (* FS GS RS US and the space *)
  || (c =? 133)                      (* U+0085 NEL *)
  || (c =? 160)                      (* U+00A0 NBSP *)
  || (c =? 5760)                     (* U+1680 *)
  || ((8192 <=? c) && (c <=? 8202))  (* U+2000 .. U+200A *)
  || (c =? 8232) || (c =? 8233)      (* U+2028, U+2029 *)
  || (c =? 8239)                     (* U+202F *)
  || (c =? 8287)                     (* U+205F *)
  || (c =? 12288).                   (* U+3000 *)

Fixpoint lstrip (s : str) : str :=
  match s with
  | [] => []
  | c :: r => if isspace c then lstrip r else s
  end.

Definition rstrip (s : str) : str := rev (lstrip (rev s)).

Definition strip (s : str) : str := rstrip (lstrip s).

(** [s] consists of whitespace only. *)
Definition all_space (s : str) : Prop := Forall (fun c => isspace c = true) s.

(** [s] neither starts nor ends with a whitespace code point. *)
Definition trimmed (s : str) : Prop :=
  (forall c r, s = c :: r -> isspace c = false)
  /\ (forall r c, s = r ++ [c] -> isspace c = false).

(** ** Cells, exceptions *)

(** A cell of a column read by [pd.read_csv]: text, or the missing value. *)
Inductive cell :=
| Text (s : str)
| NaN.

(** [str(v)], which [str.format] applies to a field value with an empty
    format specification. *)
Definition py_str (v : cell) : str :=
  match v with
  | Text s => s
  | NaN => u8 "nan"
  end.

Inductive exn :=
| KeyError (key : str)
| IndexError
| ValueError (msg : string)
| RemoteError (name : string)
| NoSuchObject.   (* a reference outside the store; Python never raises it *)

(** ** [str.format] with keyword arguments

    One pass over the template.  [field] is [None] in literal text and
    [Some name] while the name of a replacement field is being read.  The
    model covers plain keyword fields; a field with a conversion, a format
    specification, an attribute or an index is reported as [ValueError]. *)

Definition lbrace : char := 123.
Definition rbrace : char := 125.

Definition plain_name_char (c : char) : bool :=
  negb ((c =? lbrace) || (c =? 33) || (c =? 58) || (c =? 46) || (c =? 91)).

Definition is_digit (c : char) : bool := (48 <=? c) && (c <=? 57).

Fixpoint lookup_kw (kw : list (str * cell)) (name : str) : option cell :=
  match kw with
  | [] => None
  | (k, v) :: kw' => if str_eqb k name then Some v else lookup_kw kw' name
  end.

Definition get_field (kw : list (str * cell)) (name : str) : exn + cell :=
  if forallb is_digit name then inl IndexError   (* positional; none is given *)
  else if negb (forallb plain_name_char name) then
    inl (ValueError "unsupported replacement field")
  else match lookup_kw kw name with
       | Some v => inr v
       | None => inl (KeyError name)
       end.

Definition map_ok {A B} (f : A -> B) (r : exn + A) : exn + B :=
  match r with
  | inl e => inl e
  | inr a => inr (f a)
  end.

Fixpoint format_scan (kw : list (str * cell)) (tpl : str) (field : option str)
  : exn + str :=
  match field, tpl with
  | None, [] => inr []
  | None, c :: r =>
    if c =? lbrace then
      match r with
      | [] => inl (ValueError "Single '{' encountered in format string")
      | c' :: r' =>
        if c' =? lbrace then map_ok (cons lbrace) (format_scan kw r' None)
        else format_scan kw r (Some [])
      end
    else if c =? rbrace then
      match r with
      | [] => inl (ValueError "Single '}' encountered in format string")
      | c' :: r' =>
        if c' =? rbrace then map_ok (cons rbrace) (format_scan kw r' None)
        else inl (ValueError "Single '}' encountered in format string")
      end
    else map_ok (cons c) (format_scan kw r None)
  | Some name, [] => inl (ValueError "expected '}' before end of string")
  | Some name, c :: r =>
    if c =? rbrace then
      match get_field kw name with
      | inl e => inl e
      | inr v => map_ok (app (py_str v)) (format_scan kw r None)
      end
    else format_scan kw r (Some (name ++ [c]))
  end.

Definition format (tpl : str) (kw : list (str * cell)) : exn + str :=
  format_scan kw tpl None.

(** ** The prompt template of [translate_column] *)

Definition example_prompt : str := u8 "
    Please translate the following Thai YouTube comments from Thai to English and only return the translated text:
    [Thai Text]
    ก็สมควรติดแหละ เหมือนไม่ได้กลัวเลยแมสไม่ใส่ไม่เว้นระยะ
    [English Text]
    It's no wonder they got infected. It's like they weren't scared at all, not wearing a mask and not social distancing.

    [Thai Text]
    {text}
    [English Text]
    ".

(** The template text before and after its placeholder. *)
Definition prompt_head : str := u8 "
    Please translate the following Thai YouTube comments from Thai to English and only return the translated text:
    [Thai Text]
    ก็สมควรติดแหละ เหมือนไม่ได้กลัวเลยแมสไม่ใส่ไม่เว้นระยะ
    [English Text]
    It's no wonder they got infected. It's like they weren't scared at all, not wearing a mask and not social distancing.

    [Thai Text]
    ".

Definition prompt_tail : str := u8 "
    [English Text]
    ".

Definition placeholder : str := u8 "{text}".


Close Scope N_scope.

(** ** Safety settings ([vertexai.generative_models])

    The two enumerations are the SDK's; the notebook names four categories
    and one threshold. *)

Inductive HarmCategory :=
| HARM_CATEGORY_UNSPECIFIED
| HARM_CATEGORY_HATE_SPEECH
| HARM_CATEGORY_DANGEROUS_CONTENT
| HARM_CATEGORY_HARASSMENT
| HARM_CATEGORY_SEXUALLY_EXPLICIT.

Inductive HarmBlockThreshold :=
| HARM_BLOCK_THRESHOLD_UNSPECIFIED
| BLOCK_LOW_AND_ABOVE
| BLOCK_MEDIUM_AND_ABOVE
| BLOCK_ONLY_HIGH
| BLOCK_NONE.

Record SafetySetting := {
  category : HarmCategory;
  threshold : HarmBlockThreshold;
}.

Definition safety_config : list SafetySetting :=
  [ {| category := HARM_CATEGORY_DANGEROUS_CONTENT; threshold := BLOCK_NONE |};
    {| category := HARM_CATEGORY_HARASSMENT; threshold := BLOCK_NONE |};
    {| category := HARM_CATEGORY_HATE_SPEECH; threshold := BLOCK_NONE |};
    {| category := HARM_CATEGORY_SEXUALLY_EXPLICIT; threshold := BLOCK_NONE |} ].

Definition category_eqb (a b : HarmCategory) : bool :=
  match a, b with
  | HARM_CATEGORY_UNSPECIFIED, HARM_CATEGORY_UNSPECIFIED
  | HARM_CATEGORY_HATE_SPEECH, HARM_CATEGORY_HATE_SPEECH
  | HARM_CATEGORY_DANGEROUS_CONTENT, HARM_CATEGORY_DANGEROUS_CONTENT
  | HARM_CATEGORY_HARASSMENT, HARM_CATEGORY_HARASSMENT
  | HARM_CATEGORY_SEXUALLY_EXPLICIT, HARM_CATEGORY_SEXUALLY_EXPLICIT => true
  | _, _ => false
  end.

(** The threshold a policy sets for a category, if it names the category. *)
Fixpoint threshold_for (policy : list SafetySetting) (c : HarmCategory)
  : option HarmBlockThreshold :=
  match policy with
  | [] => None
  | s :: rest =>
    if category_eqb (category s) c then Some (threshold s)
    else threshold_for rest c
  end.

(** ** Dataframes and series *)

Abbreviation label := Z (only parsing).
Abbreviation loc := positive (only parsing).

Record DataFrame := {
  df_index : list label;
  df_columns : list (string * list cell);
}.

(** The result of [pd.Series(translated_texts, index=df.index)]. *)
Record Series := {
  sr_values : list str;
  sr_index : list label;
}.

Fixpoint get_column (cols : list (string * list cell)) (name : string)
  : option (list cell) :=
  match cols with
  | [] => None
  | (k, c) :: rest => if String.eqb k name then Some c else get_column rest name
  end.

(** [df[name] = col]: replaces the column in place when it exists, appends it
    as the last column otherwise. *)
Fixpoint set_column (cols : list (string * list cell)) (name : string)
  (col : list cell) : list (string * list cell) :=
  match cols with
  | [] => [(name, col)]
  | (k, c) :: rest =>
    if String.eqb k name then (k, col) :: rest
    else (k, c) :: set_column rest name col
  end.

(** No two columns of the frame carry the same label.  Only on such a frame
    is [df[name]] one column, the case [get_column] and [getitem] describe;
    [pd.read_csv] builds such frames. *)
Definition unique_labels (d : DataFrame) : Prop :=
  NoDup (map fst (df_columns d)).

(** A dataframe is well formed when its column labels are unique and every
    column has one cell per index label. *)
Definition df_wf (d : DataFrame) : Prop :=
  unique_labels d
  /\ Forall (fun kc => length (snd kc) = length (df_index d)) (df_columns d).

(** [df.shape]: number of rows, number of columns. *)
Definition shape (d : DataFrame) : nat * nat :=
  (length (df_index d), length (df_columns d)).

(** The labels among [names] that are not columns of the frame. *)
Definition missing_labels (cols : list (string * list cell))
  (names : list string) : list string :=
  List.filter
    (fun name => match get_column cols name with Some _ => false | None => true end)
    names.

(** The columns [df[[name, ...]]] keeps, in the order asked for. *)
Fixpoint select_columns (cols : list (string * list cell)) (names : list string)
  : list (string * list cell) :=
  match names with
  | [] => []
  | name :: rest =>
    match get_column cols name with
    | Some c => (name, c) :: select_columns cols rest
    | None => select_columns cols rest
    end
  end.

(** ** The world a notebook cell runs in *)

(** Which [print] of [translate_column] produced a notification: the one
    inside the loop or the one after it. *)
Inductive site := Milestone | Final.

Inductive event :=
| Request (prompt : str) (safety_settings : list SafetySetting)
| Notify (at_ : site) (count : nat).

(** The line a notification writes to standard output:
    [f"Successful translation: {successful_translation}"]. *)
Definition progress_line (count : nat) : string :=
  "Successful translation: " +:+ pretty count.

Fixpoint stdout (tr : list event) : list string :=
  match tr with
  | [] => []
  | Request _ _ :: rest => stdout rest
  | Notify _ n :: rest => progress_line n :: stdout rest
  end.

Fixpoint requests (tr : list event) : list (str * list SafetySetting) :=
  match tr with
  | [] => []
  | Request p cfg :: rest => (p, cfg) :: requests rest
  | Notify _ _ :: rest => requests rest
  end.

(** The counts cited by the notifications printed at [k], in order. *)
Fixpoint notified (k : site) (tr : list event) : list nat :=
  match tr with
  | [] => []
  | Request _ _ :: rest => notified k rest
  | Notify Milestone n :: rest =>
    match k with Milestone => n :: notified k rest | Final => notified k rest end
  | Notify Final n :: rest =>
    match k with Final => n :: notified k rest | Milestone => notified k rest end
  end.

(** What one call [model.generate_content(...).text] gives: the text, or the
    exception raised by the call or by reading [.text]. *)
Inductive reply :=
| Returned (text : str)
| Raised (e : exn).

Declare Scope py_scope.
Delimit Scope py_scope with py.

Section Notebook.

(** The remote model: an arbitrary state machine answering one request at a
    time.  Its state stands for everything outside the notebook (quota,
    network, sampling). *)
Context {S_ : Type}.
Variable generate : S_ -> str -> list SafetySetting -> S_ * reply.

Record world := {
  service : S_;
  safety_global : list SafetySetting;   (* the module global [safety_config] *)
  frames : gmap positive DataFrame;     (* dataframe objects by reference *)
  trace : list event;                   (* requests and prints, oldest first *)
}.

(** *** State and exception monad *)

Definition M (A : Type) : Type := world -> (exn + A) * world.

Definition ret {A} (a : A) : M A := fun w => (inr a, w).

Definition bind {A B} (m : M A) (k : A -> M B) : M B :=
  fun w =>
    match m w with
    | (inl e, w') => (inl e, w')
    | (inr a, w') => k a w'
    end.

Definition raise {A} (e : exn) : M A := fun w => (inl e, w).

(** [try: body except Exception as e: handler(e)] *)
Definition try_except {A} (body : M A) (handler : exn -> M A) : M A :=
  fun w =>
    match body w with
    | (inl e, w') => handler e w'
    | (inr a, w') => (inr a, w')
    end.

Definition lift {A} (r : exn + A) : M A :=
  match r with
  | inl e => raise e
  | inr a => ret a
  end.

Definition emit (ev : event) : M unit :=
  fun w =>
    (inr tt, {| service := service w; safety_global := safety_global w;
                frames := frames w; trace := trace w ++ [ev] |}).

Notation "'let*' x := m 'in' k" := (bind m (fun x => k))
  (at level 10, x name, m at level 100, k at level 200, only parsing)
  : py_scope.
Notation "m ;; k" := (bind m (fun _ => k))
  (at level 100, k at level 200, only parsing, right associativity)
  : py_scope.
Local Open Scope py_scope.

(** *** Primitive operations *)

(** The cell that binds the global [safety_config]. *)
Definition define_safety_config : M unit :=
  fun w =>
    (inr tt, {| service := service w; safety_global := safety_config;
                frames := frames w; trace := trace w |}).

(** [print(f"Successful translation: {count}")] *)
Definition print_progress (k : site) (count : nat) : M unit :=
  emit (Notify k count).

(** [model.generate_content(prompt, safety_settings=safety_config).text] *)
Definition generate_content (prompt : str) : M str :=
  fun w =>
    let cfg := safety_global w in
    let (s', r) := generate (service w) prompt cfg in
    let w' := {| service := s'; safety_global := cfg; frames := frames w;
                 trace := trace w ++ [Request prompt cfg] |} in
    match r with
    | Returned text => (inr text, w')
    | Raised e => (inl e, w')
    end.

Definition deref (df : loc) : M DataFrame :=
  fun w =>
    match frames w !! df with
    | Some d => (inr d, w)
    | None => (inl NoSuchObject, w)
    end.

Definition store (df : loc) (d : DataFrame) : M unit :=
  fun w =>
    (inr tt, {| service := service w; safety_global := safety_global w;
                frames := <[df := d]> (frames w); trace := trace w |}).

(** [df[column_name]], on a frame whose labels are unique *)
Definition getitem (df : loc) (column_name : string) : M (list cell) :=
  let* d := deref df in
  match get_column (df_columns d) column_name with
  | Some col => ret col
  | None => raise (KeyError (Utf8.decode column_name))
  end.

(** [df.index] *)
Definition get_index (df : loc) : M (list label) :=
  let* d := deref df in ret (df_index d).

(** [pd.Series(values, index=index)] for a list of values *)
Definition new_series (values : list str) (index : list label) : M Series :=
  if Nat.eqb (length values) (length index)
  then ret {| sr_values := values; sr_index := index |}
  else raise (ValueError "Length of values does not match length of index").

(** *** [translate_column] *)

(** Truth value of a list: non-empty. *)
Definition truthy {A} (l : list A) : bool :=
  match l with [] => false | _ :: _ => true end.

(** One iteration of the [for] loop over [(translated_texts,
    successful_translation)]. *)
Definition loop_body (text : cell) (st : list str * nat)
  : M (list str * nat) :=
  let (translated_texts, successful_translation) := st in
  (if truthy translated_texts
      && Nat.eqb (successful_translation mod 100) 0
   then print_progress Milestone successful_translation
   else ret tt) ;;
  try_except
    (let* prompt := lift (format example_prompt [(u8 "text", text)]) in
     let* response := generate_content prompt in
     ret (translated_texts ++ [strip response], S successful_translation))
    (fun e => raise e).

Fixpoint for_each (rows : list cell) (st : list str * nat)
  : M (list str * nat) :=
  match rows with
  | [] => ret st
  | text :: rest => let* st' := loop_body text st in for_each rest st'
  end.

Definition translate_column (df : loc) (column_name : string) : M Series :=
  let* column := getitem df column_name in
  let* st := for_each column ([], 0) in
  print_progress Final (snd st) ;;
  let* index := get_index df in
  new_series (fst st) index.

(** *** The driver cells

    [df['english_comment_text'] =
       translate_column(df.copy(deep=True), "comment_text", model)] *)

(** [df.copy(deep=True)]: a new object with the same contents. *)
Definition copy_deep (df : loc) : M loc :=
  let* d := deref df in
  fun w =>
    let l := fresh (dom (frames w)) in
    (inr l, {| service := service w; safety_global := safety_global w;
               frames := <[l := d]> (frames w); trace := trace w |}).

(** The cell a series gives to the row labelled [l] when its index differs
    from the frame's: the value stored under [l], the missing value when
    there is none. *)
Fixpoint value_at (idx : list label) (vals : list str) (l : label) : cell :=
  match idx, vals with
  | i :: idx', v :: vals' => if Z.eqb i l then Text v else value_at idx' vals' l
  | _, _ => NaN
  end.

(** [df[name] = series]: the values as they are when the series has the
    frame's index, realigned by label otherwise (pandas refuses to realign
    a series whose index has duplicate labels). *)
Definition setitem (df : loc) (name : string) (s : Series) : M unit :=
  let* d := deref df in
  let* col :=
    (if decide (sr_index s = df_index d)
     then ret (map Text (sr_values s))
     else if decide (NoDup (sr_index s))
     then ret (map (value_at (sr_index s) (sr_values s)) (df_index d))
     else raise (ValueError "cannot reindex on an axis with duplicate labels")) in
  store df {| df_index := df_index d;
              df_columns := set_column (df_columns d) name col |}.

Definition translate_cell (df : loc) : M unit :=
  let* copy := copy_deep df in
  let* series := translate_column copy "comment_text" in
  setitem df "english_comment_text" series.

(** The argument of the [KeyError] pandas raises when labels asked for are
    not columns: a message built from the labels asked for and the missing
    ones.  Its wording is pandas' own and is taken as given. *)
Variable not_in_index : list string -> list string -> str.

(** [df[names]] for a list of names: a new frame on the same index, or
    [KeyError] when a label is missing. *)
Definition getitem_list (df : loc) (names : list string) : M DataFrame :=
  let* d := deref df in
  match missing_labels (df_columns d) names with
  | [] => ret {| df_index := df_index d;
                 df_columns := select_columns (df_columns d) names |}
  | missing => raise (KeyError (not_in_index names missing))
  end.

(** The cell that shows the result:
    [df[['comment_text', 'english_comment_text']]] *)
Definition show_cell (df : loc) : M DataFrame :=
  getitem_list df ["comment_text"; "english_comment_text"].

(** *** Describing a run

    The definitions below are not part of the notebook; they say what the
    remote model answers to a sequence of rows and what a run of the loop
    leaves in the trace, so that the theorems can speak about runs. *)

(** The prompt of a row: the template with the row's text in place of its
    placeholder. *)
Definition prompt_of (text : cell) : str :=
  prompt_head ++ py_str text ++ prompt_tail.

Record served := {
  answered : list str;    (* the texts returned, up to the first exception *)
  failed : option exn;    (* the first exception, if any *)
  after : S_;             (* the state the model is left in *)
}.

(** The model asked about [rows] in order, with policy [cfg], from state
    [s], until it raises. *)
Fixpoint serve (cfg : list SafetySetting) (s : S_) (rows : list cell)
  : served :=
  match rows with
  | [] => {| answered := []; failed := None; after := s |}
  | text :: rest =>
    match generate s (prompt_of text) cfg with
    | (s', Returned t) =>
      let r := serve cfg s' rest in
      {| answered := t :: answered r; failed := failed r; after := after r |}
    | (s', Raised e) =>
      {| answered := []; failed := Some e; after := s' |}
    end
  end.

(** Number of rows whose iteration was entered. *)
Definition started (r : served) : nat :=
  length (answered r) + match failed r with Some _ => 1 | None => 0 end.

Definition milestone_due (n : nat) : bool :=
  negb (Nat.eqb n 0) && Nat.eqb (n mod 100) 0.

(** Events of the iterations over [rows], the first of which is entered
    with [n] translations done. *)
Fixpoint loop_trace (cfg : list SafetySetting) (n : nat) (rows : list cell)
  : list event :=
  match rows with
  | [] => []
  | text :: rest =>
    (if milestone_due n then [Notify Milestone n] else [])
      ++ Request (prompt_of text) cfg :: loop_trace cfg (S n) rest
  end.

(** [w] with the model in state [s] and [evs] added to the trace. *)
Definition push (evs : list event) (s : S_) (w : world) : world :=
  {| service := s; safety_global := safety_global w; frames := frames w;
     trace := trace w ++ evs |}.

(** The events added between two worlds. *)
Definition since (w w' : world) : list event :=
  drop (length (trace w)) (trace w').

End Notebook.

Arguments world : clear implicits.
Arguments M : clear implicits.
Arguments served : clear implicits.

(** ** A stand-in model for concrete runs *)

Module Mock.

(** The state counts the requests answered so far.  Request number [n]
    (from 0) is answered with ["  <n>/<length of the prompt> \n"], or with
    an exception when [n] is the number given in [fail_at]. *)
Definition answer (n : nat) (prompt : str) : str :=
  [32; 32]%N ++ Utf8.decode (pretty n) ++ [47]%N
    ++ Utf8.decode (pretty (length prompt)) ++ [32; 10]%N.

Definition quota : exn := RemoteError "ResourceExhausted".

Definition model (fail_at : option nat) (n : nat) (prompt : str)
  (cfg : list SafetySetting) : nat * reply :=
  (S n,
   if decide (fail_at = Some n) then Raised quota
   else Returned (answer n prompt)).

(** A frame as [pd.read_csv] builds it: a range index and the text column. *)
Definition frame_of (rows : list cell) : DataFrame :=
  {| df_index := Z.of_nat <$> seq 0 (length rows);
     df_columns := [("id", Text <$> replicate (length rows) [120]%N);
                    ("comment_text", rows)] |}.

(** The world after the setup cells: policy bound, one frame loaded. *)
Definition start (rows : list cell) : world nat :=
  {| service := 0; safety_global := safety_config;
     frames := {[ 1%positive := frame_of rows ]}; trace := [] |}.

Definition comment : cell :=
  Text (u8 "ก็สมควรติดแหละ เหมือนไม่ได้กลัวเลยแมสไม่ใส่ไม่เว้นระยะ").

(** A text with braces and a line break. *)
Definition odd : cell := Text (u8 "{0} }{ a
b").

Definition rows3 : list cell := [comment; odd; comment].

(** A wording for the message of a [KeyError] about missing labels. *)
Definition not_in_index (names missing : list string) : str :=
  Utf8.decode (String.concat ", " missing +:+ " not in index").

(** A model that answers every request with blanks only. *)
Definition blank (n : nat) (prompt : str) (cfg : list SafetySetting)
  : nat * reply :=
  (S n, Returned [32; 9; 10; 160]%N).

End Mock.

(** * Properties *)

(** ** The template *)

Lemma example_prompt_split :
  example_prompt = prompt_head ++ placeholder ++ prompt_tail.
Proof. vm_compute. reflexivity. Qed.

Lemma example_prompt_length : length example_prompt = 383.
Proof. vm_compute. reflexivity. Qed.

(** The template has one replacement field, [text], and no escaped brace:
    formatting it cannot fail and puts [str(text)] where the field was. *)
Lemma format_example_prompt (text : cell) :
  format example_prompt [(u8 "text", text)]
  = inr (prompt_head ++ py_str text ++ prompt_tail).
Proof. vm_compute. reflexivity. Qed.

Opaque example_prompt prompt_head prompt_tail.

(** ** [str.strip] *)

Lemma lstrip_split (s : list N) :
  exists l, s = l ++ lstrip s /\ all_space l.
Proof.
  induction s as [|c r [l [Hl Hs]]]; simpl.
  - exists []. split; [reflexivity | constructor].
  - destruct (isspace c) eqn:Hc.
    + exists (c :: l). split.
      * simpl. f_equal. exact Hl.
      * constructor; assumption.
    + exists []. split; [reflexivity | constructor].
Qed.

Lemma lstrip_head (s : list N) c r : lstrip s = c :: r -> isspace c = false.
Proof.
  induction s as [|x s IH]; simpl; [discriminate|].
  destruct (isspace x) eqn:Hx; [exact IH|].
  intros [= -> _]. exact Hx.
Qed.

Lemma lstrip_fixed (s : list N) :
  (forall c r, s = c :: r -> isspace c = false) -> lstrip s = s.
Proof.
  destruct s as [|c r]; [reflexivity|].
  intros H. simpl. rewrite (H c r eq_refl). reflexivity.
Qed.

Lemma rstrip_split (s : list N) :
  exists r, s = rstrip s ++ r /\ all_space r.
Proof.
  unfold rstrip. destruct (lstrip_split (rev s)) as [l [Hl Hs]].
  exists (rev l). split.
  - rewrite <- rev_app_distr, <- Hl, rev_involutive. reflexivity.
  - apply Forall_rev. exact Hs.
Qed.

Lemma rstrip_last (s : list N) r c : rstrip s = r ++ [c] -> isspace c = false.
Proof.
  unfold rstrip. intros H.
  apply (f_equal (@rev N)) in H.
  rewrite rev_involutive, rev_app_distr in H. simpl in H.
  eapply lstrip_head. exact H.
Qed.

Lemma rstrip_fixed (s : list N) :
  (forall r c, s = r ++ [c] -> isspace c = false) -> rstrip s = s.
Proof.
  intros H. unfold rstrip. rewrite lstrip_fixed.
  - apply rev_involutive.
  - intros c r Hr. apply (H (rev r) c).
    rewrite <- (rev_involutive s), Hr. reflexivity.
Qed.

(** A prefix of a string that does not start with whitespace does not either. *)
Lemma rstrip_head (s : list N) c r :
  (forall c' r', s = c' :: r' -> isspace c' = false) ->
  rstrip s = c :: r -> isspace c = false.
Proof.
  intros Hs Hr. destruct (rstrip_split s) as [t [Ht _]].
  rewrite Hr in Ht. simpl in Ht. eapply Hs. exact Ht.
Qed.

Lemma strip_trimmed (s : list N) : trimmed (strip s).
Proof.
  unfold strip. split.
  - intros c r H. eapply rstrip_head; [|exact H].
    intros c' r'. apply lstrip_head.
  - intros r c. apply rstrip_last.
Qed.

Lemma strip_split (s : list N) :
  exists l r, s = l ++ strip s ++ r /\ all_space l /\ all_space r.
Proof.
  destruct (lstrip_split s) as [l [Hl Hsl]].
  destruct (rstrip_split (lstrip s)) as [r [Hr Hsr]].
  exists l, r. unfold strip. rewrite <- Hr. auto.
Qed.

Lemma strip_of_trimmed (s : list N) : trimmed s -> strip s = s.
Proof.
  intros [Hh Hl]. unfold strip. rewrite lstrip_fixed by exact Hh.
  apply rstrip_fixed. exact Hl.
Qed.

Lemma strip_idempotent (s : list N) : strip (strip s) = strip s.
Proof. apply strip_of_trimmed, strip_trimmed. Qed.

Lemma lstrip_all_space (l s : list N) : all_space l -> lstrip (l ++ s) = lstrip s.
Proof.
  induction 1 as [|c l Hc _ IH]; simpl; [reflexivity|].
  rewrite Hc. exact IH.
Qed.

Lemma rstrip_all_space (s r : list N) : all_space r -> rstrip (s ++ r) = rstrip s.
Proof.
  intros Hr. unfold rstrip. rewrite rev_app_distr, lstrip_all_space.
  - reflexivity.
  - apply Forall_rev. exact Hr.
Qed.

(** [strip] is the only way to cut a string into whitespace, a trimmed middle
    and whitespace. *)
Lemma strip_unique (l m r : list N) :
  all_space l -> all_space r -> trimmed m -> strip (l ++ m ++ r) = m.
Proof.
  intros Hl Hr Hm. unfold strip. rewrite lstrip_all_space by exact Hl.
  destruct m as [|c m'].
  - simpl. rewrite <- (app_nil_r r), lstrip_all_space by exact Hr. reflexivity.
  - rewrite lstrip_fixed.
    + rewrite rstrip_all_space by exact Hr. apply rstrip_fixed, Hm.
    + intros c' r' [= <- _]. apply (proj1 Hm c m'). reflexivity.
Qed.

(** ** Runs of the loop *)

Section Runs.

Context {S_ : Type}.
Variable generate : S_ -> list N -> list SafetySetting -> S_ * reply.

Implicit Types (w : world S_) (rows : list cell) (acc : list (list N)).

Lemma push_push evs1 evs2 s1 s2 w :
  push evs2 s2 (push evs1 s1 w) = push (evs1 ++ evs2) s2 w.
Proof. unfold push. simpl. rewrite app_assoc. reflexivity. Qed.

Lemma since_push evs s w : since w (push evs s w) = evs.
Proof. unfold since, push. simpl. apply drop_app_length. Qed.

Lemma truthy_length {A} (l : list A) : truthy l = negb (Nat.eqb (length l) 0).
Proof. destruct l; reflexivity. Qed.

(** One iteration, entered in any loop state and any world: at most one
    milestone, then exactly one request. *)
Lemma loop_body_any text acc n w :
  loop_body generate text (acc, n) w
  = let (s', r) := generate (service w) (prompt_of text) (safety_global w) in
    (match r with
     | Returned t => inr (acc ++ [strip t], S n)
     | Raised e => inl e
     end,
     push ((if truthy acc && Nat.eqb (n mod 100) 0
            then [Notify Milestone n] else [])
             ++ [Request (prompt_of text) (safety_global w)]) s' w).
Proof.
  unfold loop_body, bind, try_except.
  rewrite format_example_prompt. fold (prompt_of text). unfold push.
  destruct (truthy acc && Nat.eqb (n mod 100) 0); simpl;
    unfold generate_content; simpl;
    destruct (generate (service w) (prompt_of text) (safety_global w))
      as [s' [t|e]]; simpl; rewrite <- ?app_assoc; reflexivity.
Qed.

(** In the loop the counter is the length of the list. *)
Lemma loop_body_run text acc w :
  loop_body generate text (acc, length acc) w
  = let (s', r) := generate (service w) (prompt_of text) (safety_global w) in
    (match r with
     | Returned t => inr (acc ++ [strip t], S (length acc))
     | Raised e => inl e
     end,
     push (loop_trace (safety_global w) (length acc) [text]) s' w).
Proof.
  rewrite loop_body_any, truthy_length. reflexivity.
Qed.

(** The whole loop, in terms of what the model answers. *)
Lemma for_each_run rows acc n w :
  n = length acc ->
  for_each generate rows (acc, n) w
  = (match failed (serve generate (safety_global w) (service w) rows) with
     | None =>
       inr (acc ++ map strip
              (answered (serve generate (safety_global w) (service w) rows)),
            n + length rows)
     | Some e => inl e
     end,
     push (loop_trace (safety_global w) n
             (take (started (serve generate (safety_global w) (service w) rows))
                   rows))
          (after (serve generate (safety_global w) (service w) rows)) w).
Proof.
  revert acc n w. induction rows as [|text rest IH]; intros acc n w ->;
    cbn [for_each serve].
  - unfold ret, push. simpl. rewrite !app_nil_r, Nat.add_0_r.
    destruct w; reflexivity.
  - unfold bind. rewrite loop_body_run.
    destruct (generate (service w) (prompt_of text) (safety_global w))
      as [s' [t|e]] eqn:Hg.
    + rewrite (IH (acc ++ [strip t]) (S (length acc)))
        by (rewrite length_app; simpl; lia).
      rewrite push_push.
      cbn [push safety_global service].
      set (r := serve generate (safety_global w) s' rest).
      unfold started. cbn [answered failed after length].
      fold (started r). cbn [Nat.add firstn loop_trace].
      f_equal.
      * destruct (failed r); [reflexivity|].
        rewrite <- app_assoc. cbn [map app length].
        f_equal. f_equal. lia.
      * f_equal. rewrite <- app_assoc. reflexivity.
    + unfold started. cbn [answered failed after length Nat.add firstn].
      reflexivity.
Qed.

(** *** What the model answers *)

Lemma serve_length cfg s rows :
  length (answered (serve generate cfg s rows)) <= length rows
  /\ started (serve generate cfg s rows) <= length rows.
Proof.
  revert s. induction rows as [|text rest IH]; intros s; cbn [serve].
  - unfold started. simpl. lia.
  - destruct (generate s (prompt_of text) cfg) as [s' [t|e]].
    + specialize (IH s'). unfold started in *.
      cbn [answered failed length]. lia.
    + unfold started. simpl. lia.
Qed.

Lemma serve_ok_length cfg s rows :
  failed (serve generate cfg s rows) = None ->
  length (answered (serve generate cfg s rows)) = length rows.
Proof.
  revert s. induction rows as [|text rest IH]; intros s; cbn [serve].
  - reflexivity.
  - destruct (generate s (prompt_of text) cfg) as [s' [t|e]];
      cbn [answered failed length]; [|discriminate].
    intros H. rewrite (IH s' H). reflexivity.
Qed.

Lemma started_ok cfg s rows :
  failed (serve generate cfg s rows) = None ->
  started (serve generate cfg s rows) = length rows.
Proof.
  intros H. unfold started. rewrite H, (serve_ok_length _ _ _ H). lia.
Qed.

(** Row [i] of a run that reached it: the rows before it were answered,
    and the model's reply to its prompt decides how the run goes on. *)
Lemma serve_lookup cfg s rows i text :
  rows !! i = Some text ->
  i < started (serve generate cfg s rows) ->
  failed (serve generate cfg s (take i rows)) = None
  /\ length (answered (serve generate cfg s (take i rows))) = i
  /\ match snd (generate (after (serve generate cfg s (take i rows)))
                         (prompt_of text) cfg) with
     | Returned t => answered (serve generate cfg s rows) !! i = Some t
     | Raised e => failed (serve generate cfg s rows) = Some e
                   /\ length (answered (serve generate cfg s rows)) = i
     end.
Proof.
  revert s i. induction rows as [|x rest IH]; intros s i Hi Hlt;
    [discriminate|].
  destruct i as [|i].
  - injection Hi as ->. cbn [firstn serve after answered failed length].
    repeat split.
    destruct (generate s (prompt_of text) cfg) as [s' [t|e]]; simpl; auto.
  - cbn [firstn serve] in *. simpl in Hi.
    destruct (generate s (prompt_of x) cfg) as [s' [t|e]].
    + unfold started in Hlt. cbn [answered failed length] in Hlt.
      destruct (IH s' i Hi) as (H1 & H2 & H3).
      { unfold started. lia. }
      cbn [answered failed after length]. repeat split; auto.
      destruct (snd (generate (after (serve generate cfg s' (take i rest)))
                              (prompt_of text) cfg)).
      * exact H3.
      * destruct H3 as [-> ->]. auto.
    + unfold started in Hlt. simpl in Hlt. lia.
Qed.

(** The first exception: rows before [k] answered, row [k] raising. *)
Lemma serve_first_failure cfg s rows k text s' e :
  rows !! k = Some text ->
  failed (serve generate cfg s (take k rows)) = None ->
  generate (after (serve generate cfg s (take k rows))) (prompt_of text) cfg
  = (s', Raised e) ->
  failed (serve generate cfg s rows) = Some e
  /\ length (answered (serve generate cfg s rows)) = k
  /\ after (serve generate cfg s rows) = s'.
Proof.
  revert s k. induction rows as [|x rest IH]; intros s k Hk Hok Hg;
    [discriminate|].
  destruct k as [|k].
  - injection Hk as ->. cbn [firstn serve after] in Hg.
    cbn [serve]. rewrite Hg. auto.
  - cbn [firstn serve] in *. simpl in Hk.
    destruct (generate s (prompt_of x) cfg) as [s1 [t|e1]].
    + cbn [answered failed after length] in *.
      destruct (IH s1 k Hk Hok Hg) as (H1 & H2 & H3). auto.
    + discriminate.
Qed.

(** *** What the loop leaves in the trace *)

Lemma requests_app tr1 tr2 : requests (tr1 ++ tr2) = requests tr1 ++ requests tr2.
Proof.
  induction tr1 as [|[p c|k n] tr1 IH]; simpl; rewrite ?IH; reflexivity.
Qed.

Lemma notified_app k tr1 tr2 :
  notified k (tr1 ++ tr2) = notified k tr1 ++ notified k tr2.
Proof.
  induction tr1 as [|[p c|[] n] tr1 IH]; destruct k; simpl; rewrite ?IH;
    reflexivity.
Qed.

Lemma stdout_app tr1 tr2 : stdout (tr1 ++ tr2) = stdout tr1 ++ stdout tr2.
Proof.
  induction tr1 as [|[p c|k n] tr1 IH]; simpl; rewrite ?IH; reflexivity.
Qed.

Lemma requests_loop_trace cfg n rows :
  requests (loop_trace cfg n rows) = map (fun text => (prompt_of text, cfg)) rows.
Proof.
  revert n. induction rows as [|text rest IH]; intros n; cbn [loop_trace map];
    [reflexivity|].
  rewrite requests_app. cbn [requests]. rewrite IH.
  destruct (milestone_due n); reflexivity.
Qed.

Lemma finals_loop_trace cfg n rows : notified Final (loop_trace cfg n rows) = [].
Proof.
  revert n. induction rows as [|text rest IH]; intros n; cbn [loop_trace];
    [reflexivity|].
  rewrite notified_app. cbn [notified]. rewrite IH.
  destruct (milestone_due n); reflexivity.
Qed.

Lemma milestones_loop_trace cfg n rows :
  notified Milestone (loop_trace cfg n rows)
  = List.filter milestone_due (seq n (length rows)).
Proof.
  revert n. induction rows as [|text rest IH]; intros n;
    cbn [loop_trace length seq List.filter]; [reflexivity|].
  rewrite notified_app. cbn [notified]. rewrite IH.
  destruct (milestone_due n); reflexivity.
Qed.

(** *** [translate_column] as a whole *)

Lemma push_nil w : push [] (service w) w = w.
Proof. unfold push. rewrite app_nil_r. destruct w; reflexivity. Qed.

Lemma get_column_wf d col rows :
  df_wf d -> get_column (df_columns d) col = Some rows ->
  length rows = length (df_index d).
Proof.
  intros [_ Hwf]. revert Hwf. generalize (df_index d) as idx.
  induction (df_columns d) as [|[k c] cols IH]; intros idx Hwf; simpl;
    [discriminate|].
  inversion Hwf as [|? ? Hc Hrest]; subst.
  destruct (String.eqb k col).
  - intros [= <-]. exact Hc.
  - apply IH. exact Hrest.
Qed.

Lemma translate_column_run df col w d rows :
  frames w !! df = Some d ->
  get_column (df_columns d) col = Some rows ->
  translate_column generate df col w
  = match failed (serve generate (safety_global w) (service w) rows) with
    | Some e =>
      (inl e,
       push (loop_trace (safety_global w) 0
               (take (started (serve generate (safety_global w) (service w) rows))
                     rows))
            (after (serve generate (safety_global w) (service w) rows)) w)
    | None =>
      new_series
        (map strip (answered (serve generate (safety_global w) (service w) rows)))
        (df_index d)
        (push (loop_trace (safety_global w) 0 rows ++ [Notify Final (length rows)])
              (after (serve generate (safety_global w) (service w) rows)) w)
    end.
Proof.
  intros Hd Hcol.
  unfold translate_column, getitem, get_index, deref, print_progress, emit,
    bind.
  rewrite Hd, Hcol. unfold ret at 1.
  rewrite (for_each_run rows [] 0 w eq_refl).
  destruct (failed _) eqn:Hf; [reflexivity|].
  rewrite (started_ok _ _ _ Hf), firstn_all.
  cbn [push frames service safety_global trace fst snd app Nat.add].
  rewrite Hd. unfold ret. rewrite <- app_assoc. reflexivity.
Qed.

Lemma translate_column_missing df col w d :
  frames w !! df = Some d ->
  get_column (df_columns d) col = None ->
  translate_column generate df col w = (inl (KeyError (Utf8.decode col)), w).
Proof.
  intros Hd Hcol.
  unfold translate_column, getitem, deref, bind. rewrite Hd, Hcol.
  reflexivity.
Qed.

Lemma translate_column_dangling df col w :
  frames w !! df = None ->
  translate_column generate df col w = (inl NoSuchObject, w).
Proof.
  intros Hd. unfold translate_column, getitem, deref, bind. rewrite Hd.
  reflexivity.
Qed.

Lemma new_series_world values index w :
  snd (new_series values index w) = w.
Proof. unfold new_series. destruct (Nat.eqb _ _); reflexivity. Qed.

(** Whatever happens, a call only moves the model and extends the trace,
    and what it adds are iterations over a prefix of some rows, possibly
    followed by the final notification. *)
Lemma translate_column_world df col w :
  exists rows s' fin,
    snd (translate_column generate df col w)
    = push (loop_trace (safety_global w) 0 rows ++ fin) s' w
    /\ (fin = [] \/ exists n, fin = [Notify Final n]).
Proof.
  destruct (frames w !! df) as [d|] eqn:Hd.
  - destruct (get_column (df_columns d) col) as [rows|] eqn:Hcol.
    + rewrite (translate_column_run _ _ _ _ _ Hd Hcol).
      destruct (failed _).
      * eexists _, _, []. rewrite app_nil_r. split; [reflexivity | auto].
      * eexists _, _, _. rewrite new_series_world. split; [reflexivity|].
        right. eauto.
    + rewrite (translate_column_missing _ _ _ _ Hd Hcol).
      exists [], (service w), []. simpl. rewrite push_nil. auto.
  - rewrite (translate_column_dangling _ _ _ Hd).
    exists [], (service w), []. simpl. rewrite push_nil. auto.
Qed.

Lemma translate_column_frames df col w :
  frames (snd (translate_column generate df col w)) = frames w
  /\ safety_global (snd (translate_column generate df col w)) = safety_global w.
Proof.
  destruct (translate_column_world df col w) as (rows & s' & fin & -> & _).
  split; reflexivity.
Qed.

End Runs.

(** ** The translation loop: results *)

Lemma lookup_map {A B} (f : A -> B) (l : list A) (i : nat) :
  map f l !! i = f <$> (l !! i).
Proof.
  revert i. induction l as [|x l IH]; intros [|i]; simpl; auto.
Qed.

Section Results.

Context {S_ : Type}.
Variable generate : S_ -> list N -> list SafetySetting -> S_ * reply.

(** C1.  On a well-formed frame (unique labels, one cell per index label),
    when the model answers every row, [translate_column] returns a series
    carrying the frame's index, with one value per row of the column;
    exactly one request per row was sent, in row order; and value [i] is the
    text the model returned for the prompt of row [i] without its leading
    and trailing whitespace: the response is that value between two runs of
    whitespace, and the value neither starts nor ends with whitespace. *)
Theorem translate_column_aligned
    (df : positive) (col : string) (w : world S_) (d : DataFrame)
    (rows : list cell) :
  frames w !! df = Some d ->
  df_wf d ->
  get_column (df_columns d) col = Some rows ->
  failed (serve generate (safety_global w) (service w) rows) = None ->
  exists series w',
    translate_column generate df col w = (inr series, w')
    /\ sr_index series = df_index d
    /\ length (sr_values series) = length rows
    /\ length (sr_values series) = length (sr_index series)
    /\ requests (since w w')
       = map (fun text => (prompt_of text, safety_global w)) rows
    /\ forall i text,
         rows !! i = Some text ->
         exists response,
           snd (generate
                  (after (serve generate (safety_global w) (service w)
                                (take i rows)))
                  (prompt_of text) (safety_global w))
           = Returned response
           /\ sr_values series !! i = Some (strip response)
           /\ trimmed (strip response)
           /\ exists l r, response = l ++ strip response ++ r
                          /\ all_space l /\ all_space r.
Proof.
  intros Hd Hwf Hcol Hok.
  pose proof (get_column_wf _ _ _ Hwf Hcol) as Hlen.
  pose proof (serve_ok_length _ _ _ _ Hok) as Hans.
  rewrite (translate_column_run _ _ _ _ _ _ Hd Hcol), Hok.
  unfold new_series.
  rewrite length_map, Hans, Hlen, Nat.eqb_refl.
  eexists _, _. split; [reflexivity|].
  cbn [sr_index sr_values]. rewrite since_push, length_map, Hans.
  repeat split; auto.
  - rewrite requests_app, requests_loop_trace. simpl. apply app_nil_r.
  - intros i text Hi.
    assert (i < started (serve generate (safety_global w) (service w) rows))
      as Hlt.
    { rewrite (started_ok _ _ _ _ Hok). eapply lookup_lt_Some. exact Hi. }
    destruct (serve_lookup generate _ _ _ _ _ Hi Hlt) as (_ & _ & H).
    destruct (snd _) as [t|e].
    + exists t. split; [reflexivity|].
      split; [rewrite lookup_map, H; reflexivity|].
      split; [apply strip_trimmed | apply strip_split].
    + destruct H as [H _]. congruence.
Qed.

(** C2.  On a frame with unique labels, when the model answers rows
    [0..k-1] and raises [e] on row [k],
    [translate_column] ends with [e] and returns no series.  It has sent
    one request for each of the rows [0..k], in order, and none after; it
    printed no final notification; every dataframe is as before the call,
    and nothing of the world holds the translations of rows [0..k-1]. *)
Theorem translate_column_aborts
    (df : positive) (col : string) (w : world S_) (d : DataFrame)
    (rows : list cell) (k : nat) (text : cell) (s' : S_) (e : exn) :
  frames w !! df = Some d ->
  unique_labels d ->
  get_column (df_columns d) col = Some rows ->
  rows !! k = Some text ->
  failed (serve generate (safety_global w) (service w) (take k rows)) = None ->
  generate (after (serve generate (safety_global w) (service w) (take k rows)))
           (prompt_of text) (safety_global w)
  = (s', Raised e) ->
  exists w',
    translate_column generate df col w = (inl e, w')
    /\ w' = push (loop_trace (safety_global w) 0 (take (S k) rows)) s' w
    /\ requests (since w w')
       = map (fun text => (prompt_of text, safety_global w)) (take (S k) rows)
    /\ length (requests (since w w')) = S k
    /\ notified Final (since w w') = []
    /\ frames w' = frames w.
Proof.
  intros Hd _ Hcol Hk Hpre Hg.
  destruct (serve_first_failure generate _ _ _ _ _ _ _ Hk Hpre Hg)
    as (Hf & Hlen & Hs).
  rewrite (translate_column_run _ _ _ _ _ _ Hd Hcol), Hf.
  unfold started. rewrite Hf, Hlen, Hs, Nat.add_1_r.
  eexists. split; [reflexivity|]. split; [reflexivity|].
  rewrite since_push, requests_loop_trace, finals_loop_trace, length_map.
  repeat split; auto.
  rewrite length_take. apply lookup_lt_Some in Hk. lia.
Qed.

(** C10.  On a well-formed frame (unique labels, one cell per index label)
    and a column without rows, [translate_column] sends no request,
    prints no milestone, prints the final notification once, citing 0, and
    returns the empty series on the frame's (empty) index. *)
Theorem translate_column_empty
    (df : positive) (col : string) (w : world S_) (d : DataFrame) :
  frames w !! df = Some d ->
  df_wf d ->
  get_column (df_columns d) col = Some [] ->
  exists w',
    translate_column generate df col w
    = (inr {| sr_values := []; sr_index := df_index d |}, w')
    /\ df_index d = []
    /\ since w w' = [Notify Final 0]
    /\ requests (since w w') = []
    /\ service w' = service w
    /\ notified Milestone (since w w') = []
    /\ notified Final (since w w') = [0]
    /\ stdout (since w w') = ["Successful translation: 0"].
Proof.
  intros Hd Hwf Hcol.
  pose proof (get_column_wf _ _ _ Hwf Hcol) as Hlen. simpl in Hlen.
  rewrite (translate_column_run _ _ _ _ _ _ Hd Hcol).
  cbn [serve failed answered after map loop_trace app length].
  unfold new_series. rewrite <- Hlen. cbn [length Nat.eqb].
  eexists. split; [reflexivity|].
  rewrite since_push. symmetry in Hlen. apply length_zero_iff_nil in Hlen.
  repeat split; auto.
Qed.

End Results.

(** ** Progress notifications *)

Lemma milestone_due_spec (n : nat) :
  milestone_due n = true <-> 0 < n /\ n mod 100 = 0.
Proof.
  unfold milestone_due. rewrite andb_true_iff, negb_true_iff.
  rewrite !Nat.eqb_neq, Nat.eqb_eq. lia.
Qed.

Lemma count_occ_filter_seq (f : nat -> bool) (a m c : nat) :
  count_occ Nat.eq_dec (List.filter f (seq a m)) c
  = if f c && (a <=? c) && (c <? a + m) then 1 else 0.
Proof.
  revert a. induction m as [|m IH]; intros a; cbn [seq List.filter].
  - simpl. destruct (f c), (Nat.leb_spec a c), (Nat.ltb_spec c (a + 0));
      simpl; auto; lia.
  - assert (count_occ Nat.eq_dec (if f a then a :: List.filter f (seq (S a) m)
                                   else List.filter f (seq (S a) m)) c
            = (if Nat.eq_dec a c then (if f a then 1 else 0) else 0)
              + count_occ Nat.eq_dec (List.filter f (seq (S a) m)) c) as ->.
    { destruct (f a); cbn [count_occ]; destruct (Nat.eq_dec a c); lia. }
    rewrite IH.
    destruct (Nat.eq_dec a c) as [->|Hne].
    + destruct (f c), (Nat.leb_spec (S c) c), (Nat.leb_spec c c),
        (Nat.ltb_spec c (c + S m)), (Nat.ltb_spec c (S c + m));
        simpl; auto; lia.
    + destruct (f c), (Nat.leb_spec (S a) c), (Nat.leb_spec a c),
        (Nat.ltb_spec c (a + S m)), (Nat.ltb_spec c (S a + m));
        simpl; auto; lia.
Qed.

Lemma progress_line_inj (a b : nat) : progress_line a = progress_line b -> a = b.
Proof.
  unfold progress_line. cbn [String.append]. intros H.
  injection H as H. apply (inj pretty). exact H.
Qed.

Section Progress.

Context {S_ : Type}.
Variable generate : S_ -> list N -> list SafetySetting -> S_ * reply.

(** What a call adds to the trace: the iterations that were entered, then
    the final notification if no request raised. *)
Lemma translate_column_trace df col (w : world S_) d rows :
  frames w !! df = Some d ->
  get_column (df_columns d) col = Some rows ->
  since w (snd (translate_column generate df col w))
  = loop_trace (safety_global w) 0
      (take (started (serve generate (safety_global w) (service w) rows)) rows)
    ++ match failed (serve generate (safety_global w) (service w) rows) with
       | None => [Notify Final (length rows)]
       | Some _ => []
       end.
Proof.
  intros Hd Hcol. rewrite (translate_column_run _ _ _ _ _ _ Hd Hcol).
  destruct (failed _) eqn:Hf.
  - cbn [snd]. rewrite since_push, app_nil_r. reflexivity.
  - rewrite new_series_world, since_push, (started_ok _ _ _ _ Hf), firstn_all.
    reflexivity.
Qed.

(** An iteration is entered for row [c] exactly when [c] translations
    succeeded and the column has a row after them. *)
Lemma started_iff cfg s rows c :
  c < started (serve generate cfg s rows)
  <-> c <= length (answered (serve generate cfg s rows)) /\ c < length rows.
Proof.
  pose proof (serve_length generate cfg s rows) as [H1 H2].
  unfold started in *.
  destruct (failed (serve generate cfg s rows)) eqn:Hf.
  - lia.
  - rewrite (serve_ok_length _ _ _ _ Hf) in *. lia.
Qed.

Lemma loop_trace_milestone cfg n rows c :
  In c (notified Milestone (loop_trace cfg n rows)) ->
  exists pre post text,
    loop_trace cfg n rows
    = pre ++ Notify Milestone c :: Request (prompt_of text) cfg :: post
    /\ n + length (requests pre) = c
    /\ rows !! (c - n) = Some text.
Proof.
  revert n. induction rows as [|text rest IH]; intros n; cbn [loop_trace];
    [intros []|].
  rewrite notified_app. cbn [notified]. intros Hin.
  apply in_app_or in Hin. destruct Hin as [Hin|Hin].
  - destruct (milestone_due n); [|destruct Hin].
    destruct Hin as [<-|[]].
    exists [], (loop_trace cfg (S n) rest), text.
    rewrite Nat.sub_diag. simpl. auto with arith.
  - destruct (IH _ Hin) as (pre & post & text' & Heq & Hlen & Hrow).
    exists ((if milestone_due n then [Notify Milestone n] else [])
              ++ Request (prompt_of text) cfg :: pre), post, text'.
    rewrite Heq, <- app_assoc. split; [reflexivity|].
    rewrite requests_app. cbn [requests].
    replace (c - n) with (S (c - S n)) by lia.
    split; [|exact Hrow].
    destruct (milestone_due n); simpl; lia.
Qed.

Lemma stdout_loop_trace cfg n rows :
  stdout (loop_trace cfg n rows)
  = map progress_line (notified Milestone (loop_trace cfg n rows)).
Proof.
  revert n. induction rows as [|text rest IH]; intros n; cbn [loop_trace];
    [reflexivity|].
  rewrite stdout_app, notified_app, map_app. cbn [stdout notified].
  rewrite IH. destruct (milestone_due n); reflexivity.
Qed.

Section OneCall.

Variables (df : positive) (col : string) (w : world S_) (d : DataFrame)
          (rows : list cell).
Hypothesis Hd : frames w !! df = Some d.
Hypothesis Hcol : get_column (df_columns d) col = Some rows.

Let r := serve generate (safety_global w) (service w) rows.
Let tr := since w (snd (translate_column generate df col w)).

Lemma call_trace :
  tr = loop_trace (safety_global w) 0 (take (started r) rows)
       ++ match failed r with
          | None => [Notify Final (length rows)]
          | Some _ => []
          end.
Proof. apply (translate_column_trace df col w d rows Hd Hcol). Qed.

Lemma call_milestones :
  notified Milestone tr = List.filter milestone_due (seq 0 (started r)).
Proof.
  rewrite call_trace, notified_app, milestones_loop_trace, length_take.
  pose proof (serve_length generate (safety_global w) (service w) rows)
    as [_ Hle]. fold r in Hle.
  rewrite Nat.min_l by exact Hle.
  destruct (failed r); simpl; apply app_nil_r.
Qed.

Lemma call_milestone_count c :
  count_occ Nat.eq_dec (notified Milestone tr) c
  = if milestone_due c && (c <? started r) then 1 else 0.
Proof.
  rewrite call_milestones, count_occ_filter_seq. simpl.
  rewrite andb_true_r. reflexivity.
Qed.

Lemma call_milestone_only c :
  In c (notified Milestone tr) ->
  0 < c /\ c mod 100 = 0 /\ c <= length (answered r) /\ c < length rows.
Proof.
  intros Hin. apply (count_occ_In Nat.eq_dec) in Hin.
  rewrite call_milestone_count in Hin.
  destruct (milestone_due c) eqn:Hdue; [|simpl in Hin; lia].
  destruct (Nat.ltb_spec c (started r)) as [Hlt|]; [|simpl in Hin; lia].
  apply milestone_due_spec in Hdue. apply started_iff in Hlt. tauto.
Qed.

Lemma call_finals :
  notified Final tr
  = match failed r with None => [length rows] | Some _ => [] end.
Proof.
  rewrite call_trace, notified_app, finals_loop_trace.
  destruct (failed r); reflexivity.
Qed.

Lemma call_stdout :
  stdout tr = map progress_line (notified Milestone tr)
              ++ map progress_line (notified Final tr).
Proof.
  rewrite call_trace, stdout_app, !notified_app, finals_loop_trace,
    stdout_loop_trace.
  destruct (failed r); simpl; rewrite ?app_nil_r; reflexivity.
Qed.

End OneCall.

(** C3, as the loop has it, on a frame with unique labels.  A milestone
    citing [c] is printed exactly once
    when [c] is a positive multiple of 100, [c] translations succeeded and
    the column has a row after them; no other milestone is printed.  A run
    in which no request raised ends with one final notification citing the
    number of rows, which is the number of translations; a run that was
    aborted prints none.  The printed lines are the milestones followed by
    the final notification. *)
Theorem progress_notifications
    (df : positive) (col : string) (w : world S_) (d : DataFrame)
    (rows : list cell) :
  frames w !! df = Some d ->
  unique_labels d ->
  get_column (df_columns d) col = Some rows ->
  let r := serve generate (safety_global w) (service w) rows in
  let tr := since w (snd (translate_column generate df col w)) in
  (forall c, 0 < c -> c mod 100 = 0 ->
             c <= length (answered r) -> c < length rows ->
             count_occ Nat.eq_dec (notified Milestone tr) c = 1)
  /\ (forall c, In c (notified Milestone tr) ->
                0 < c /\ c mod 100 = 0
                /\ c <= length (answered r) /\ c < length rows)
  /\ notified Final tr
     = match failed r with None => [length rows] | Some _ => [] end
  /\ (failed r = None ->
      length (answered r) = length rows
      /\ exists tr0, tr = tr0 ++ [Notify Final (length rows)])
  /\ stdout tr
     = map progress_line (notified Milestone tr)
       ++ map progress_line (notified Final tr).
Proof.
  intros Hd _ Hcol. cbv zeta.
  pose proof (call_trace df col w d rows Hd Hcol) as Htr.
  pose proof (call_milestone_count df col w d rows Hd Hcol) as Hcount.
  split; [|split; [|split; [|split]]].
  - intros c H0 H100 Hans Hrows. rewrite Hcount.
    assert (milestone_due c = true) as -> by (apply milestone_due_spec; auto).
    assert (c < started (serve generate (safety_global w) (service w) rows))
      as Hlt by (apply started_iff; auto).
    apply Nat.ltb_lt in Hlt. rewrite Hlt. reflexivity.
  - apply (call_milestone_only df col w d rows Hd Hcol).
  - apply (call_finals df col w d rows Hd Hcol).
  - intros Hok. split; [apply serve_ok_length; exact Hok|].
    rewrite Htr, Hok. eauto.
  - apply (call_stdout df col w d rows Hd Hcol).
Qed.

(** C9.  On a frame with unique labels, a milestone citing [c] sits in the
    trace right before the request
    for row [c], after exactly [c] requests: it is printed when the
    iteration of a later row starts.  Hence, when the model answers every
    row of a column of [100 * m] rows, no milestone cites [100 * m]; only
    the final notification does, and its line is printed once, last. *)
Theorem milestone_needs_next_row
    (df : positive) (col : string) (w : world S_) (d : DataFrame)
    (rows : list cell) :
  frames w !! df = Some d ->
  unique_labels d ->
  get_column (df_columns d) col = Some rows ->
  let r := serve generate (safety_global w) (service w) rows in
  let tr := since w (snd (translate_column generate df col w)) in
  (forall c, In c (notified Milestone tr) ->
     exists pre post text,
       tr = pre ++ Notify Milestone c
                :: Request (prompt_of text) (safety_global w) :: post
       /\ length (requests pre) = c
       /\ rows !! c = Some text)
  /\ (forall m, 1 <= m -> length rows = 100 * m -> failed r = None ->
        ~ In (100 * m) (notified Milestone tr)
        /\ notified Final tr = [100 * m]
        /\ exists before,
             stdout tr = before ++ [progress_line (100 * m)]
             /\ ~ In (progress_line (100 * m)) before).
Proof.
  intros Hd _ Hcol. cbv zeta.
  pose proof (call_trace df col w d rows Hd Hcol) as Htr.
  pose proof (call_finals df col w d rows Hd Hcol) as Hfin.
  pose proof (call_stdout df col w d rows Hd Hcol) as Hout.
  pose proof (call_milestone_only df col w d rows Hd Hcol) as Honly.
  set (r := serve generate (safety_global w) (service w) rows) in *.
  set (tr := since w (snd (translate_column generate df col w))) in *.
  split.
  - intros c Hin.
    assert (In c (notified Milestone
                    (loop_trace (safety_global w) 0 (take (started r) rows))))
      as Hin'.
    { rewrite Htr, notified_app in Hin. apply in_app_or in Hin.
      destruct Hin as [Hin|Hin]; [exact Hin|].
      destruct (failed r); destruct Hin. }
    destruct (loop_trace_milestone _ _ _ _ Hin')
      as (pre & post & text & Heq & Hlen & Hrow).
    rewrite Nat.sub_0_r in Hrow. apply lookup_take_Some in Hrow.
    eexists pre, _, text. rewrite Htr, Heq, <- app_assoc.
    split; [reflexivity|]. split; [exact Hlen | apply Hrow].
  - intros m Hm Hlen Hok.
    assert (Hno : ~ In (100 * m) (notified Milestone tr)).
    { intros Hin. apply Honly in Hin. lia. }
    split; [exact Hno|]. rewrite Hok in Hfin. rewrite Hlen in Hfin.
    split; [exact Hfin|].
    exists (map progress_line (notified Milestone tr)).
    rewrite Hout, Hfin. split; [reflexivity|].
    intros Hin. apply in_map_iff in Hin. destruct Hin as (c & Hc & Hin).
    apply progress_line_inj in Hc. subst c. exact (Hno Hin).
Qed.

End Progress.

(** ** Prompts and responses *)

Section Prompts.

Context {S_ : Type}.
Variable generate : S_ -> list N -> list SafetySetting -> S_ * reply.

Lemma loop_body_requests text st (w : world S_) :
  requests (since w (snd (loop_body generate text st w)))
  = [(prompt_of text, safety_global w)].
Proof.
  destruct st as [acc n]. rewrite loop_body_any.
  destruct (generate _ _ _) as [s' r]. cbn [snd].
  rewrite since_push, requests_app.
  destruct (truthy acc && Nat.eqb (n mod 100) 0); reflexivity.
Qed.

(** C4.  The template is its head, the placeholder [{text}] and its tail;
    formatting it with a row's text gives the head, the text unchanged,
    whatever code points it holds, and the tail; and these are the prompts
    the loop sends, one per row it enters, in row order. *)
Theorem prompt_is_template_around_text :
  example_prompt = prompt_head ++ placeholder ++ prompt_tail
  /\ (forall s : list N,
        format example_prompt [(u8 "text", Text s)]
        = inr (prompt_head ++ s ++ prompt_tail))
  /\ (forall (rows : list cell) (w : world S_),
        map fst (requests (since w (snd (for_each generate rows ([], 0) w))))
        = map (fun text => prompt_head ++ py_str text ++ prompt_tail)
              (take (started (serve generate (safety_global w) (service w) rows))
                    rows)).
Proof.
  split; [exact example_prompt_split|]. split.
  - intros s. apply (format_example_prompt (Text s)).
  - intros rows w. rewrite (for_each_run generate rows [] 0 w eq_refl).
    cbn [snd]. rewrite since_push, requests_loop_trace, map_map.
    reflexivity.
Qed.

(** C6.  Whatever the loop state and the world in which a row is reached,
    the iteration for a given text sends one request, and its prompt is the
    same string. *)
Theorem prompt_rendering_deterministic
    (text : cell) (st1 st2 : list (list N) * nat) (w1 w2 : world S_) :
  exists prompt,
    format example_prompt [(u8 "text", text)] = inr prompt
    /\ map fst (requests (since w1 (snd (loop_body generate text st1 w1))))
       = [prompt]
    /\ map fst (requests (since w2 (snd (loop_body generate text st2 w2))))
       = [prompt].
Proof.
  exists (prompt_of text). rewrite !loop_body_requests.
  split; [apply format_example_prompt|]. split; reflexivity.
Qed.

(** C5.  The value an iteration stores for a response is [strip] of it,
    taken once: the response is that value between a whitespace prefix and
    a whitespace suffix, the value neither starts nor ends with whitespace,
    and no other cut of the response has these properties; what lies
    between the two ends is kept as it is. *)
Theorem response_trimmed_once
    (text : cell) (acc : list (list N)) (w : world S_) (s' : S_)
    (response : list N) :
  generate (service w) (prompt_of text) (safety_global w)
  = (s', Returned response) ->
  fst (loop_body generate text (acc, length acc) w)
  = inr (acc ++ [strip response], S (length acc))
  /\ (exists l r, response = l ++ strip response ++ r
                  /\ all_space l /\ all_space r)
  /\ trimmed (strip response)
  /\ strip (strip response) = strip response
  /\ (forall l m r, response = l ++ m ++ r ->
                    all_space l -> all_space r -> trimmed m ->
                    strip response = m).
Proof.
  intros Hg. rewrite loop_body_any, Hg. cbn [fst].
  split; [reflexivity|]. split; [apply strip_split|].
  split; [apply strip_trimmed|]. split; [apply strip_idempotent|].
  intros l m r -> Hl Hr Hm. apply strip_unique; assumption.
Qed.

End Prompts.

(** ** Dataframes and the safety policy *)

Lemma get_column_set_column_ne cols name col name' :
  name' <> name ->
  get_column (set_column cols name col) name' = get_column cols name'.
Proof.
  intros Hne. induction cols as [|[k c] cols IH]; simpl.
  - destruct (String.eqb_spec name name'); congruence.
  - destruct (String.eqb_spec k name) as [->|Hk]; simpl.
    + destruct (String.eqb_spec name name'); congruence.
    + destruct (String.eqb_spec k name'); auto.
Qed.

Lemma get_column_set_column cols name col :
  get_column (set_column cols name col) name = Some col.
Proof.
  induction cols as [|[k c] cols IH]; simpl.
  - rewrite String.eqb_refl. reflexivity.
  - destruct (String.eqb_spec k name) as [->|Hk]; simpl.
    + rewrite String.eqb_refl. reflexivity.
    + destruct (String.eqb_spec k name); [contradiction | exact IH].
Qed.

Lemma set_column_new cols name col :
  get_column cols name = None -> set_column cols name col = cols ++ [(name, col)].
Proof.
  induction cols as [|[k c] cols IH]; simpl; [reflexivity|].
  destruct (String.eqb k name); [discriminate|].
  intros H. rewrite (IH H). reflexivity.
Qed.

Lemma define_safety_config_global {S_ : Type} (w : world S_) :
  safety_global (snd (define_safety_config w)) = safety_config.
Proof. reflexivity. Qed.

Lemma safety_config_blocks_nothing :
  threshold_for safety_config HARM_CATEGORY_DANGEROUS_CONTENT = Some BLOCK_NONE
  /\ threshold_for safety_config HARM_CATEGORY_HARASSMENT = Some BLOCK_NONE
  /\ threshold_for safety_config HARM_CATEGORY_HATE_SPEECH = Some BLOCK_NONE
  /\ threshold_for safety_config HARM_CATEGORY_SEXUALLY_EXPLICIT = Some BLOCK_NONE
  /\ Forall (fun s => threshold s = BLOCK_NONE) safety_config.
Proof. repeat split; repeat constructor. Qed.

Section Frame.

Context {S_ : Type}.
Variable generate : S_ -> list N -> list SafetySetting -> S_ * reply.

Lemma translate_column_index df col (w w' : world S_) d series :
  frames w !! df = Some d ->
  translate_column generate df col w = (inr series, w') ->
  sr_index series = df_index d.
Proof.
  intros Hd. destruct (get_column (df_columns d) col) as [rows|] eqn:Hcol.
  - rewrite (translate_column_run _ _ _ _ _ _ Hd Hcol).
    destruct (failed _); [discriminate|].
    unfold new_series. destruct (Nat.eqb _ _); [|discriminate].
    intros [= <- _]. reflexivity.
  - rewrite (translate_column_missing _ _ _ _ _ Hd Hcol). discriminate.
Qed.

(** The driver cell: the copy it makes is a new object, the call leaves the
    store alone, and the assignment touches one column of the frame. *)
Lemma translate_cell_frames df (w : world S_) d :
  frames w !! df = Some d ->
  (forall l, l <> df -> is_Some (frames w !! l) ->
             frames (snd (translate_cell generate df w)) !! l = frames w !! l)
  /\ match fst (translate_cell generate df w) with
     | inr _ =>
       exists values,
         frames (snd (translate_cell generate df w)) !! df
         = Some {| df_index := df_index d;
                   df_columns := set_column (df_columns d)
                                   "english_comment_text" (map Text values) |}
     | inl _ => frames (snd (translate_cell generate df w)) !! df = Some d
     end.
Proof.
  intros Hd.
  unfold translate_cell, copy_deep, deref, bind. rewrite Hd.
  set (l0 := fresh (dom (frames w))).
  assert (Hfresh : frames w !! l0 = None).
  { apply not_elem_of_dom. apply is_fresh. }
  assert (Hne : l0 <> df) by congruence.
  set (w1 := {| service := service w; safety_global := safety_global w;
                frames := <[l0:=d]> (frames w); trace := trace w |}).
  assert (Hcopy : frames w1 !! l0 = Some d) by apply lookup_insert_eq.
  pose proof (translate_column_frames generate l0 "comment_text" w1)
    as [Hfr _].
  destruct (translate_column generate l0 "comment_text" w1)
    as [[e|series] w2] eqn:Hcall; cbn [snd] in Hfr.
  - cbn [fst snd]. rewrite Hfr. cbn [frames w1]. split.
    + intros l Hl [x Hx]. rewrite lookup_insert_ne; [reflexivity|].
      congruence.
    + rewrite lookup_insert_ne by exact Hne. exact Hd.
  - pose proof (translate_column_index _ _ _ _ _ _ Hcopy Hcall) as Hidx.
    unfold setitem, deref, bind, store.
    assert (Hd2 : frames w2 !! df = Some d).
    { rewrite Hfr. cbn [frames w1]. rewrite lookup_insert_ne by exact Hne.
      exact Hd. }
    rewrite Hd2. rewrite decide_True by exact Hidx.
    unfold ret. cbn [fst snd frames]. split.
    + intros l Hl [x Hx]. rewrite lookup_insert_ne by congruence.
      rewrite Hfr. cbn [frames w1]. rewrite lookup_insert_ne; [reflexivity|].
      congruence.
    + exists (sr_values series). apply lookup_insert_eq.
Qed.

(** C7.  A call of [translate_column] leaves every dataframe of the store
    as it was, whatever its outcome.  After the driver cell the frame it
    names has the index it had, every column other than
    [english_comment_text] as it was, and the new column last when it is
    new; every other frame that existed is unchanged. *)
Theorem translate_column_keeps_frames
    (df : positive) (col : string) (w : world S_) (d : DataFrame) :
  frames w !! df = Some d ->
  frames (snd (translate_column generate df col w)) = frames w
  /\ (forall l, l <> df -> is_Some (frames w !! l) ->
                frames (snd (translate_cell generate df w)) !! l
                = frames w !! l)
  /\ exists d',
       frames (snd (translate_cell generate df w)) !! df = Some d'
       /\ df_index d' = df_index d
       /\ (forall name, name <> "english_comment_text" ->
             get_column (df_columns d') name = get_column (df_columns d) name)
       /\ match fst (translate_cell generate df w) with
          | inr _ =>
            exists values,
              get_column (df_columns d') "english_comment_text"
              = Some (map Text values)
              /\ (get_column (df_columns d) "english_comment_text" = None ->
                  df_columns d'
                  = df_columns d ++ [("english_comment_text", map Text values)])
          | inl _ => d' = d
          end.
Proof.
  intros Hd. split; [apply translate_column_frames|].
  destruct (translate_cell_frames df w d Hd) as [Hothers Hdf].
  split; [exact Hothers|].
  destruct (fst (translate_cell generate df w)) as [e|[]].
  - exists d. auto.
  - destruct Hdf as [values Hdf]. eexists. split; [exact Hdf|].
    cbn [df_index df_columns]. split; [reflexivity|]. split.
    + intros name Hname. apply get_column_set_column_ne. exact Hname.
    + exists values. split; [apply get_column_set_column|].
      apply set_column_new.
Qed.

(** C8.  When the global [safety_config] holds the policy of the notebook,
    every request of a call carries that policy, the global still holds it
    after the call, and the policy sets each of the four categories to
    [BLOCK_NONE]. *)
Theorem every_request_carries_policy
    (df : positive) (col : string) (w : world S_) :
  safety_global w = safety_config ->
  Forall (fun rq => snd rq = safety_config)
         (requests (since w (snd (translate_column generate df col w))))
  /\ safety_global (snd (translate_column generate df col w)) = safety_config
  /\ threshold_for safety_config HARM_CATEGORY_DANGEROUS_CONTENT
     = Some BLOCK_NONE
  /\ threshold_for safety_config HARM_CATEGORY_HARASSMENT = Some BLOCK_NONE
  /\ threshold_for safety_config HARM_CATEGORY_HATE_SPEECH = Some BLOCK_NONE
  /\ threshold_for safety_config HARM_CATEGORY_SEXUALLY_EXPLICIT
     = Some BLOCK_NONE
  /\ Forall (fun s => threshold s = BLOCK_NONE) safety_config.
Proof.
  intros Hcfg.
  destruct (translate_column_world generate df col w)
    as (rows & s' & fin & Hw & Hfin).
  rewrite Hw, since_push. split; [|split].
  - rewrite requests_app, requests_loop_trace, Hcfg.
    apply Forall_app. split.
    + apply List.Forall_forall. intros rq Hin. apply in_map_iff in Hin.
      destruct Hin as (text & <- & _). reflexivity.
    + destruct Hfin as [->|[n ->]]; constructor.
  - exact Hcfg.
  - exact safety_config_blocks_nothing.
Qed.

End Frame.

(** ** Concrete runs *)

(** The run of the notebook's test set: 231 rows, every request answered. *)
Example run_231 :
  let out := translate_column (Mock.model None) 1 "comment_text"
               (Mock.start (replicate 231 Mock.comment)) in
  (exists series, fst out = inr series /\ length (sr_values series) = 231)
  /\ length (requests (trace (snd out))) = 231
  /\ notified Milestone (trace (snd out)) = [100; 200]
  /\ notified Final (trace (snd out)) = [231]
  /\ stdout (trace (snd out))
     = ["Successful translation: 100"; "Successful translation: 200";
        "Successful translation: 231"].
Proof.
  vm_compute. split; [|repeat split]. eexists. split; reflexivity.
Qed.

(** A text with braces, a newline and a control character goes into the
    prompt as it is. *)
Example prompt_of_odd_text :
  format example_prompt [(u8 "text", Text [123; 48; 125; 10; 7; 125; 123]%N)]
  = inr (prompt_head ++ [123; 48; 125; 10; 7; 125; 123]%N ++ prompt_tail).
Proof. vm_compute. reflexivity. Qed.

(** A run of 100 rows, every request answered: 100 translations, and the
    only notification is the final one; no milestone cites 100. *)
Lemma hundred_rows_print_no_milestone :
  let out := translate_column (Mock.model None) 1 "comment_text"
               (Mock.start (replicate 100 Mock.comment)) in
  (exists series, fst out = inr series /\ length (sr_values series) = 100)
  /\ length (requests (trace (snd out))) = 100
  /\ count_occ Nat.eq_dec (notified Milestone (trace (snd out))) 100 <> 1
  /\ notified Milestone (trace (snd out)) = []
  /\ notified Final (trace (snd out)) = [100]
  /\ stdout (trace (snd out)) = ["Successful translation: 100"].
Proof.
  vm_compute. split; [|repeat split; discriminate].
  eexists. split; reflexivity.
Qed.

Lemma translate_column_aligned_witness :
  exists series w',
    translate_column (Mock.model None) 1 "comment_text" (Mock.start Mock.rows3)
    = (inr series, w')
    /\ sr_index series = [0; 1; 2]%Z
    /\ length (sr_values series) = 3.
Proof.
  destruct (translate_column_aligned (Mock.model None) 1%positive "comment_text"
              (Mock.start Mock.rows3) (Mock.frame_of Mock.rows3) Mock.rows3)
    as (series & w' & Hrun & Hidx & Hlen & _).
  - reflexivity.
  - split; [unfold unique_labels; apply (bool_decide_unpack _); vm_compute; exact I|].
    vm_compute. repeat constructor.
  - reflexivity.
  - vm_compute. reflexivity.
  - exists series, w'. split; [exact Hrun|]. split; [exact Hidx | exact Hlen].
Defined.

Lemma translate_column_aborts_witness :
  exists w',
    translate_column (Mock.model (Some 1)) 1 "comment_text"
                     (Mock.start Mock.rows3)
    = (inl Mock.quota, w')
    /\ length (requests (since (Mock.start Mock.rows3) w')) = 2
    /\ notified Final (since (Mock.start Mock.rows3) w') = []
    /\ frames w' = frames (Mock.start Mock.rows3).
Proof.
  destruct (translate_column_aborts (Mock.model (Some 1)) 1%positive
              "comment_text" (Mock.start Mock.rows3)
              (Mock.frame_of Mock.rows3) Mock.rows3 1 Mock.odd 2 Mock.quota)
    as (w' & Hrun & _ & _ & Hlen & Hfin & Hfr).
  - reflexivity.
  - unfold unique_labels. apply (bool_decide_unpack _). vm_compute. exact I.
  - reflexivity.
  - reflexivity.
  - vm_compute. reflexivity.
  - vm_compute. reflexivity.
  - exists w'. auto.
Defined.

Lemma translate_column_empty_witness :
  exists w',
    translate_column (Mock.model None) 1 "comment_text" (Mock.start [])
    = (inr {| sr_values := []; sr_index := [] |}, w')
    /\ since (Mock.start []) w' = [Notify Final 0]
    /\ stdout (since (Mock.start []) w') = ["Successful translation: 0"].
Proof.
  destruct (translate_column_empty (Mock.model None) 1%positive "comment_text"
              (Mock.start []) (Mock.frame_of []))
    as (w' & Hrun & _ & Hsince & _ & _ & _ & _ & Hout).
  - reflexivity.
  - split; [unfold unique_labels; apply (bool_decide_unpack _); vm_compute; exact I|].
    vm_compute. repeat constructor.
  - reflexivity.
  - exists w'. auto.
Defined.

Lemma progress_notifications_witness :
  let w := Mock.start (replicate 231 Mock.comment) in
  let tr := since w (snd (translate_column (Mock.model None) 1 "comment_text" w)) in
  count_occ Nat.eq_dec (notified Milestone tr) 100 = 1
  /\ count_occ Nat.eq_dec (notified Milestone tr) 200 = 1
  /\ (forall c, In c (notified Milestone tr) -> 0 < c /\ c mod 100 = 0)
  /\ notified Final tr = [231].
Proof.
  intros w tr.
  destruct (progress_notifications (Mock.model None) 1%positive "comment_text"
              w (Mock.frame_of (replicate 231 Mock.comment))
              (replicate 231 Mock.comment))
    as (Hcount & Honly & Hfinal & _).
  - reflexivity.
  - unfold unique_labels. apply (bool_decide_unpack _). vm_compute. exact I.
  - reflexivity.
  - split; [|split; [|split]].
    + apply Hcount; [lia | reflexivity | vm_compute; lia | vm_compute; lia].
    + apply Hcount; [lia | reflexivity | vm_compute; lia | vm_compute; lia].
    + intros c Hin. destruct (Honly c Hin) as (H0 & H100 & _). auto.
    + vm_compute in Hfinal. vm_compute. exact Hfinal.
Defined.

Lemma milestone_needs_next_row_witness :
  let w := Mock.start (replicate 200 Mock.comment) in
  let tr := since w (snd (translate_column (Mock.model None) 1 "comment_text" w)) in
  ~ In 200 (notified Milestone tr)
  /\ notified Final tr = [200]
  /\ exists before, stdout tr = before ++ [progress_line 200]
                    /\ ~ In (progress_line 200) before.
Proof.
  intros w tr.
  destruct (milestone_needs_next_row (Mock.model None) 1%positive "comment_text"
              w (Mock.frame_of (replicate 200 Mock.comment))
              (replicate 200 Mock.comment))
    as (_ & Hlast).
  - reflexivity.
  - unfold unique_labels. apply (bool_decide_unpack _). vm_compute. exact I.
  - reflexivity.
  - apply (Hlast 2); [lia | vm_compute; reflexivity | vm_compute; reflexivity].
Defined.

Lemma response_trimmed_once_witness :
  let response := Mock.answer 0 (prompt_of Mock.comment) in
  fst (loop_body (Mock.model None) Mock.comment ([], 0) (Mock.start Mock.rows3))
  = inr ([strip response], 1)
  /\ strip response = [48; 47; 52; 51; 49]%N.
Proof.
  intros response.
  destruct (response_trimmed_once (Mock.model None) Mock.comment []
              (Mock.start Mock.rows3) 1 response)
    as (Hstored & _).
  - vm_compute. reflexivity.
  - split; [exact Hstored | vm_compute; reflexivity].
Defined.

Lemma translate_column_keeps_frames_witness :
  let w := Mock.start Mock.rows3 in
  frames (snd (translate_column (Mock.model (Some 1)) 1 "comment_text" w))
  = frames w
  /\ exists d',
       frames (snd (translate_cell (Mock.model None) 1 w)) !! 1%positive = Some d'
       /\ df_index d' = df_index (Mock.frame_of Mock.rows3)
       /\ get_column (df_columns d') "comment_text" = Some Mock.rows3.
Proof.
  intros w. split.
  - apply (translate_column_keeps_frames (Mock.model (Some 1)) 1%positive
             "comment_text" w (Mock.frame_of Mock.rows3)).
    reflexivity.
  - destruct (translate_column_keeps_frames (Mock.model None) 1%positive
                "comment_text" w (Mock.frame_of Mock.rows3))
      as (_ & _ & d' & Hd' & Hidx & Hcols & _).
    + reflexivity.
    + exists d'. split; [exact Hd'|]. split; [exact Hidx|].
      rewrite Hcols; [reflexivity | discriminate].
Defined.

Lemma every_request_carries_policy_witness :
  let w := Mock.start Mock.rows3 in
  Forall (fun rq => snd rq = safety_config)
         (requests (since w (snd (translate_column (Mock.model None) 1
                                                   "comment_text" w))))
  /\ length (requests (since w (snd (translate_column (Mock.model None) 1
                                                      "comment_text" w)))) = 3.
Proof.
  intros w. split.
  - apply (every_request_carries_policy (Mock.model None) 1%positive
             "comment_text" w).
    reflexivity.
  - vm_compute. reflexivity.
Defined.

(** * Further properties of the notebook *)

(** ** The printed lines in closed form *)

Lemma div_100_step (m : nat) :
  m / 100 = (m - 1) / 100 + (if milestone_due m then 1 else 0).
Proof.
  pose proof (Nat.div_mod_eq m 100) as H1.
  pose proof (Nat.div_mod_eq (m - 1) 100) as H2.
  pose proof (Nat.mod_upper_bound m 100) as B1.
  pose proof (Nat.mod_upper_bound (m - 1) 100) as B2.
  destruct (milestone_due m) eqn:Hdue.
  - apply milestone_due_spec in Hdue. lia.
  - assert (~ (0 < m /\ m mod 100 = 0)) as Hn.
    { rewrite <- milestone_due_spec. congruence. }
    lia.
Qed.

Lemma filter_milestone_due_seq (m : nat) :
  List.filter milestone_due (seq 0 m)
  = map (fun j => 100 * j) (seq 1 ((m - 1) / 100)).
Proof.
  induction m as [|m IH]; [reflexivity|].
  rewrite seq_S, List.filter_app, IH. cbn [Nat.add List.filter].
  replace (S m - 1) with m by lia.
  rewrite (div_100_step m).
  destruct (milestone_due m) eqn:Hdue.
  - rewrite Nat.add_1_r, seq_S, map_app. cbn [map Nat.add]. do 2 f_equal.
    apply milestone_due_spec in Hdue.
    pose proof (div_100_step m) as Hstep.
    assert (milestone_due m = true) as Hd by (apply milestone_due_spec; exact Hdue).
    rewrite Hd in Hstep.
    pose proof (Nat.div_mod_eq m 100). lia.
  - rewrite Nat.add_0_r, app_nil_r. reflexivity.
Qed.

Section Edges.

Context {S_ : Type}.
Variable generate : S_ -> list N -> list SafetySetting -> S_ * reply.

(** X1.  Asked for a column the frame does not have, [translate_column]
    raises [KeyError] for that name before anything else happens: nothing is
    requested, nothing is printed, and the world is as it was. *)
Theorem translate_column_unknown_column
    (df : positive) (col : string) (w : world S_) (d : DataFrame) :
  frames w !! df = Some d ->
  get_column (df_columns d) col = None ->
  translate_column generate df col w = (inl (KeyError (Utf8.decode col)), w)
  /\ requests (since w (snd (translate_column generate df col w))) = []
  /\ stdout (since w (snd (translate_column generate df col w))) = [].
Proof.
  intros Hd Hcol. rewrite (translate_column_missing _ _ _ _ _ Hd Hcol).
  cbn [snd]. unfold since. rewrite drop_all. auto.
Qed.

(** X2.  The lines a call prints on a frame with unique labels, in closed
    form.  With [m] iterations
    entered, the milestones are 100, 200, ... up to the largest multiple of
    100 below [m], in this order; they are followed by the line citing the
    number of rows when no request raised, and by nothing otherwise. *)
Theorem printed_lines
    (df : positive) (col : string) (w : world S_) (d : DataFrame)
    (rows : list cell) :
  frames w !! df = Some d ->
  unique_labels d ->
  get_column (df_columns d) col = Some rows ->
  let r := serve generate (safety_global w) (service w) rows in
  stdout (since w (snd (translate_column generate df col w)))
  = map (fun j => progress_line (100 * j)) (seq 1 ((started r - 1) / 100))
    ++ match failed r with
       | None => [progress_line (length rows)]
       | Some _ => []
       end.
Proof.
  intros Hd _ Hcol. cbv zeta.
  rewrite (call_stdout generate df col w d rows Hd Hcol).
  rewrite (call_milestones generate df col w d rows Hd Hcol).
  rewrite (call_finals generate df col w d rows Hd Hcol).
  rewrite filter_milestone_due_seq, map_map.
  destruct (failed _); reflexivity.
Qed.

(** X6.  Two cells give the same prompt exactly when [str] of them is the
    same text: different texts never share a prompt, and a missing value
    gives the prompt of the text [nan]. *)
Theorem prompts_coincide (t1 t2 : cell) :
  (format example_prompt [(u8 "text", t1)]
   = format example_prompt [(u8 "text", t2)]
   <-> py_str t1 = py_str t2)
  /\ (forall s1 s2 : list N,
        format example_prompt [(u8 "text", Text s1)]
        = format example_prompt [(u8 "text", Text s2)] -> s1 = s2)
  /\ format example_prompt [(u8 "text", NaN)]
     = format example_prompt [(u8 "text", Text (u8 "nan"))].
Proof.
  assert (Hiff : forall a b : cell,
             format example_prompt [(u8 "text", a)]
             = format example_prompt [(u8 "text", b)]
             <-> py_str a = py_str b).
  { intros a b. rewrite !format_example_prompt. split.
    - intros H. apply (inj inr) in H.
      apply app_inv_head in H. apply app_inv_tail in H. exact H.
    - intros ->. reflexivity. }
  split; [apply Hiff|]. split.
  - intros s1 s2 H. apply (Hiff (Text s1) (Text s2)) in H. exact H.
  - apply Hiff. reflexivity.
Qed.

(** X7.  A response made of whitespace only is not a failure: the iteration
    stores the empty string for the row and counts the row as translated. *)
Theorem blank_response_is_stored
    (text : cell) (acc : list (list N)) (n : nat) (w : world S_) (s' : S_)
    (response : list N) :
  generate (service w) (prompt_of text) (safety_global w)
  = (s', Returned response) ->
  all_space response ->
  strip response = []
  /\ fst (loop_body generate text (acc, n) w) = inr (acc ++ [[]], S n).
Proof.
  intros Hg Hsp.
  assert (Hstrip : strip response = []).
  { rewrite <- (app_nil_r response). change (@nil N) with (@nil N ++ []) at 1.
    apply strip_unique; [exact Hsp | constructor|].
    split; [intros c r [=] | intros [|x r] c [=]]. }
  split; [exact Hstrip|].
  rewrite loop_body_any, Hg. cbn [fst]. rewrite Hstrip. reflexivity.
Qed.

End Edges.

(** ** The driver cells *)

Lemma set_column_names cols name col :
  map fst (set_column cols name col)
  = match get_column cols name with
    | Some _ => map fst cols
    | None => map fst cols ++ [name]
    end.
Proof.
  induction cols as [|[k c] cols IH]; simpl; [reflexivity|].
  destruct (String.eqb_spec k name) as [->|Hk]; simpl; [reflexivity|].
  rewrite IH. destruct (get_column cols name); reflexivity.
Qed.

Lemma set_column_wf (n : nat) cols name col :
  Forall (fun kc : string * list cell => length (snd kc) = n) cols ->
  length col = n ->
  Forall (fun kc : string * list cell => length (snd kc) = n)
         (set_column cols name col).
Proof.
  intros Hcols Hcol. induction Hcols as [|[k c] cols Hc Hrest IH]; simpl.
  - constructor; [exact Hcol | constructor].
  - destruct (String.eqb k name); constructor; auto.
Qed.

Lemma get_column_None cols name :
  get_column cols name = None -> name ∉ map fst cols.
Proof.
  induction cols as [|[k c] cols IH]; simpl.
  - intros _ Hin. inversion Hin.
  - destruct (String.eqb_spec k name) as [->|Hk]; [discriminate|].
    intros Hnone Hin. apply elem_of_cons in Hin.
    destruct Hin as [->|Hin]; [contradiction | exact (IH Hnone Hin)].
Qed.

Lemma set_column_unique cols name col :
  NoDup (map fst cols) -> NoDup (map fst (set_column cols name col)).
Proof.
  intros Hnd. rewrite set_column_names.
  destruct (get_column cols name) eqn:Hget; [exact Hnd|].
  apply NoDup_app. split; [exact Hnd|]. split.
  - intros x Hx Hin. apply list_elem_of_singleton in Hin. subst x.
    exact (get_column_None _ _ Hget Hx).
  - apply NoDup_singleton.
Qed.

Lemma get_column_select cols name c rest :
  get_column cols name = Some c ->
  select_columns cols (name :: rest) = (name, c) :: select_columns cols rest.
Proof. intros H. cbn [select_columns]. rewrite H. reflexivity. Qed.

Section Driver.

Context {S_ : Type}.
Variable generate : S_ -> list N -> list SafetySetting -> S_ * reply.

Lemma started_pos cfg s text rest :
  1 <= started (serve generate cfg s (text :: rest)).
Proof.
  cbn [serve]. destruct (generate s (prompt_of text) cfg) as [s' [t|e]];
    unfold started; cbn [answered failed length]; lia.
Qed.

(** What the driver cell does, by what the model answers: the trace it adds
    is that of the call on the copy; an exception leaves the frame as it
    was, and otherwise the frame gets the stripped answers as a column. *)
Lemma translate_cell_outcome df (w : world S_) d rows :
  frames w !! df = Some d ->
  get_column (df_columns d) "comment_text" = Some rows ->
  since w (snd (translate_cell generate df w))
  = loop_trace (safety_global w) 0
      (take (started (serve generate (safety_global w) (service w) rows)) rows)
    ++ match failed (serve generate (safety_global w) (service w) rows) with
       | None => [Notify Final (length rows)]
       | Some _ => []
       end
  /\ match failed (serve generate (safety_global w) (service w) rows) with
     | Some e =>
       fst (translate_cell generate df w) = inl e
       /\ frames (snd (translate_cell generate df w)) !! df = Some d
     | None =>
       df_wf d ->
       fst (translate_cell generate df w) = inr tt
       /\ frames (snd (translate_cell generate df w)) !! df
          = Some {| df_index := df_index d;
                    df_columns :=
                      set_column (df_columns d) "english_comment_text"
                        (map Text
                           (map strip
                              (answered (serve generate (safety_global w)
                                               (service w) rows)))) |}
     end.
Proof.
  intros Hd Hcol.
  set (l0 := fresh (dom (frames w))).
  assert (Hfresh : frames w !! l0 = None).
  { apply not_elem_of_dom. apply is_fresh. }
  assert (Hne : l0 <> df) by congruence.
  set (w1 := {| service := service w; safety_global := safety_global w;
                frames := <[l0:=d]> (frames w); trace := trace w |}).
  assert (Hcopy : frames w1 !! l0 = Some d) by apply lookup_insert_eq.
  assert (Hd1 : frames w1 !! df = Some d).
  { cbn [frames w1]. rewrite lookup_insert_ne by exact Hne. exact Hd. }
  assert (Hsince : forall evs s, since w (push evs s w1) = evs).
  { intros evs s. unfold since, push. cbn [trace w1]. apply drop_app_length. }
  assert (Hcell : translate_cell generate df w
                  = match translate_column generate l0 "comment_text" w1 with
                    | (inl e, w2) => (inl e, w2)
                    | (inr series, w2) =>
                      setitem df "english_comment_text" series w2
                    end).
  { unfold translate_cell, copy_deep, deref, bind. rewrite Hd. reflexivity. }
  rewrite Hcell.
  rewrite (translate_column_run generate l0 "comment_text" w1 d rows Hcopy Hcol).
  change (safety_global w1) with (safety_global w).
  change (service w1) with (service w).
  destruct (failed (serve generate (safety_global w) (service w) rows))
    as [e|] eqn:Hf.
  - cbn [fst snd]. rewrite Hsince, app_nil_r. auto.
  - rewrite (started_ok _ _ _ _ Hf), firstn_all.
    unfold new_series.
    destruct (Nat.eqb _ _) eqn:Hlen.
    + unfold ret.
      set (w2 := push _ _ w1).
      assert (Hset : setitem df "english_comment_text"
                       {| sr_values :=
                            map strip
                              (answered (serve generate (safety_global w)
                                               (service w) rows));
                          sr_index := df_index d |} w2
                     = (inr tt,
                        {| service := service w2;
                           safety_global := safety_global w2;
                           frames :=
                             <[df := {| df_index := df_index d;
                                        df_columns :=
                                          set_column (df_columns d)
                                            "english_comment_text"
                                            (map Text
                                               (map strip
                                                  (answered
                                                     (serve generate
                                                        (safety_global w)
                                                        (service w) rows)))) |}]>
                               (frames w2);
                           trace := trace w2 |})).
      { unfold setitem, deref, bind, store.
        change (frames w2) with (frames w1). rewrite Hd1.
        cbn [sr_index sr_values]. rewrite decide_True by reflexivity.
        reflexivity. }
      rewrite Hset. cbn [fst snd frames]. split.
      * unfold since. cbn [trace w2 push w1]. apply drop_app_length.
      * intros _. split; [reflexivity | apply lookup_insert_eq].
    + unfold raise. cbn [fst snd]. rewrite Hsince. split; [reflexivity|].
      intros Hwf. exfalso.
      pose proof (get_column_wf _ _ _ Hwf Hcol) as Hrows.
      rewrite length_map, (serve_ok_length _ _ _ _ Hf), Hrows,
        Nat.eqb_refl in Hlen.
      discriminate.
Qed.

(** X3.  On a frame with unique labels, when the model answers rows
    [0..k-1] and raises [e] on row [k], the
    driver cell ends with [e]; the frame it names is exactly as before, with
    no partial column; [k + 1] requests were sent and no final notification
    was printed. *)
Theorem translate_cell_abort
    (df : positive) (w : world S_) (d : DataFrame) (rows : list cell)
    (k : nat) (text : cell) (s' : S_) (e : exn) :
  frames w !! df = Some d ->
  unique_labels d ->
  get_column (df_columns d) "comment_text" = Some rows ->
  rows !! k = Some text ->
  failed (serve generate (safety_global w) (service w) (take k rows)) = None ->
  generate (after (serve generate (safety_global w) (service w) (take k rows)))
           (prompt_of text) (safety_global w)
  = (s', Raised e) ->
  fst (translate_cell generate df w) = inl e
  /\ frames (snd (translate_cell generate df w)) !! df = Some d
  /\ length (requests (since w (snd (translate_cell generate df w)))) = S k
  /\ notified Final (since w (snd (translate_cell generate df w))) = [].
Proof.
  intros Hd _ Hcol Hk Hpre Hg.
  destruct (serve_first_failure generate _ _ _ _ _ _ _ Hk Hpre Hg)
    as (Hf & Hlen & _).
  destruct (translate_cell_outcome df w d rows Hd Hcol) as [Htr Hout].
  rewrite Hf in Htr, Hout. destruct Hout as [Hres Hfr].
  rewrite Htr, app_nil_r, requests_loop_trace, finals_loop_trace, length_map.
  unfold started. rewrite Hf, Hlen, Nat.add_1_r, length_take.
  apply lookup_lt_Some in Hk. repeat split; auto. lia.
Qed.

(** X4.  On a well-formed frame (unique labels, one cell per index label),
    when the model answers every row, the driver cell succeeds and the
    frame it names keeps its index and its text column, stays well formed,
    and has in [english_comment_text] one cell per row: cell [i] is the
    stripped answer to the prompt of row [i]. *)
Theorem translate_cell_success
    (df : positive) (w : world S_) (d : DataFrame) (rows : list cell) :
  frames w !! df = Some d ->
  df_wf d ->
  get_column (df_columns d) "comment_text" = Some rows ->
  failed (serve generate (safety_global w) (service w) rows) = None ->
  fst (translate_cell generate df w) = inr tt
  /\ exists d' column,
       frames (snd (translate_cell generate df w)) !! df = Some d'
       /\ df_index d' = df_index d
       /\ df_wf d'
       /\ get_column (df_columns d') "comment_text" = Some rows
       /\ get_column (df_columns d') "english_comment_text" = Some column
       /\ length column = length rows
       /\ forall i text,
            rows !! i = Some text ->
            exists response,
              snd (generate
                     (after (serve generate (safety_global w) (service w)
                                   (take i rows)))
                     (prompt_of text) (safety_global w))
              = Returned response
              /\ column !! i = Some (Text (strip response))
              /\ trimmed (strip response)
              /\ exists l r, response = l ++ strip response ++ r
                             /\ all_space l /\ all_space r.
Proof.
  intros Hd Hwf Hcol Hok.
  destruct (translate_cell_outcome df w d rows Hd Hcol) as [_ Hout].
  rewrite Hok in Hout. destruct (Hout Hwf) as [Hres Hfr].
  pose proof (serve_ok_length _ _ _ _ Hok) as Hans.
  pose proof (get_column_wf _ _ _ Hwf Hcol) as Hrows.
  split; [exact Hres|]. eexists _, _. split; [exact Hfr|].
  cbn [df_index df_columns]. split; [reflexivity|]. split; [|split; [|split]].
  - split.
    + unfold unique_labels. cbn [df_columns]. apply set_column_unique.
      apply Hwf.
    + cbn [df_index df_columns]. apply set_column_wf.
      * apply Hwf.
      * rewrite !length_map, Hans. exact Hrows.
  - rewrite get_column_set_column_ne by discriminate. exact Hcol.
  - apply get_column_set_column.
  - split; [rewrite !length_map; exact Hans|].
    intros i text Hi.
    assert (i < started (serve generate (safety_global w) (service w) rows))
      as Hlt.
    { rewrite (started_ok _ _ _ _ Hok). eapply lookup_lt_Some. exact Hi. }
    destruct (serve_lookup generate _ _ _ _ _ Hi Hlt) as (_ & _ & H).
    destruct (snd (generate _ _ _)) as [t|e].
    + exists t. split; [reflexivity|].
      split; [rewrite !lookup_map, H; reflexivity|].
      split; [apply strip_trimmed | apply strip_split].
    + destruct H as [H _]. congruence.
Qed.

(** X5.  On a well-formed frame (unique labels, one cell per index label), a
    successful driver cell leaves the number of rows as it was.  When
    the frame had no [english_comment_text] column it gains one, placed
    last; when it had one (the cell is run again) the column is overwritten
    in place and the names and order of the columns do not change. *)
Theorem translate_cell_shape
    (df : positive) (w : world S_) (d : DataFrame) (rows : list cell) :
  frames w !! df = Some d ->
  df_wf d ->
  get_column (df_columns d) "comment_text" = Some rows ->
  failed (serve generate (safety_global w) (service w) rows) = None ->
  exists d',
    frames (snd (translate_cell generate df w)) !! df = Some d'
    /\ map fst (df_columns d')
       = match get_column (df_columns d) "english_comment_text" with
         | Some _ => map fst (df_columns d)
         | None => map fst (df_columns d) ++ ["english_comment_text"]
         end
    /\ shape d'
       = (fst (shape d),
          snd (shape d)
          + match get_column (df_columns d) "english_comment_text" with
            | Some _ => 0
            | None => 1
            end).
Proof.
  intros Hd Hwf Hcol Hok.
  destruct (translate_cell_outcome df w d rows Hd Hcol) as [_ Hout].
  rewrite Hok in Hout. destruct (Hout Hwf) as [_ Hfr].
  eexists. split; [exact Hfr|].
  unfold shape. cbn [df_index df_columns fst snd].
  pose proof (set_column_names (df_columns d) "english_comment_text"
                (map Text (map strip
                   (answered (serve generate (safety_global w) (service w) rows)))))
    as Hnames.
  split; [exact Hnames|].
  f_equal. apply (f_equal (@length string)) in Hnames.
  rewrite length_map in Hnames. rewrite Hnames.
  destruct (get_column (df_columns d) "english_comment_text");
    rewrite ?length_app, !length_map; simpl; lia.
Qed.

(** X9.  On a well-formed frame that has [comment_text] but no
    [english_comment_text], the cell that shows the two columns raises
    [KeyError], with pandas' message for the one missing label; after a
    successful driver cell it returns, on the frame's index, the text column
    beside its translations, and changes nothing. *)
Theorem show_cell_after_translation
    (not_in_index : list string -> list string -> list N)
    (df : positive) (w : world S_) (d : DataFrame) (rows : list cell) :
  frames w !! df = Some d ->
  df_wf d ->
  get_column (df_columns d) "comment_text" = Some rows ->
  get_column (df_columns d) "english_comment_text" = None ->
  failed (serve generate (safety_global w) (service w) rows) = None ->
  show_cell not_in_index df w
  = (inl (KeyError (not_in_index ["comment_text"; "english_comment_text"]
                                 ["english_comment_text"])), w)
  /\ show_cell not_in_index df (snd (translate_cell generate df w))
     = (inr {| df_index := df_index d;
               df_columns :=
                 [("comment_text", rows);
                  ("english_comment_text",
                   map Text
                     (map strip
                        (answered (serve generate (safety_global w)
                                         (service w) rows))))] |},
        snd (translate_cell generate df w)).
Proof.
  intros Hd Hwf Hcol Hnew Hok. split.
  - unfold show_cell, getitem_list, deref, bind. rewrite Hd.
    unfold missing_labels. cbn [List.filter]. rewrite Hcol, Hnew. reflexivity.
  - destruct (translate_cell_outcome df w d rows Hd Hcol) as [_ Hout].
    rewrite Hok in Hout. destruct (Hout Hwf) as [_ Hfr].
    unfold show_cell, getitem_list, deref, bind. rewrite Hfr.
    unfold missing_labels. cbn [List.filter select_columns df_columns df_index].
    rewrite get_column_set_column_ne by discriminate.
    rewrite Hcol, get_column_set_column. reflexivity.
Qed.

(** X8.  Nothing is resumed after an abort.  On a frame with unique labels,
    when a call was aborted on row
    [k], a second call on the same frame starts again with the prompt of
    row 0 and goes through the rows from there, whatever was translated
    before. *)
Theorem second_call_starts_over
    (df : positive) (col : string) (w : world S_) (d : DataFrame)
    (rows : list cell) (k : nat) (text : cell) (s' : S_) (e : exn) :
  frames w !! df = Some d ->
  unique_labels d ->
  get_column (df_columns d) col = Some rows ->
  rows !! k = Some text ->
  failed (serve generate (safety_global w) (service w) (take k rows)) = None ->
  generate (after (serve generate (safety_global w) (service w) (take k rows)))
           (prompt_of text) (safety_global w)
  = (s', Raised e) ->
  exists w1 row0,
    translate_column generate df col w = (inl e, w1)
    /\ rows !! 0 = Some row0
    /\ requests (since w1 (snd (translate_column generate df col w1))) !! 0
       = Some (prompt_of row0, safety_global w)
    /\ requests (since w1 (snd (translate_column generate df col w1)))
       = map (fun text => (prompt_of text, safety_global w))
             (take (started (serve generate (safety_global w) s' rows)) rows).
Proof.
  intros Hd _ Hcol Hk Hpre Hg.
  destruct (serve_first_failure generate _ _ _ _ _ _ _ Hk Hpre Hg)
    as (Hf & Hlen & Hs).
  pose proof (translate_column_run generate df col w d rows Hd Hcol) as Hrun.
  rewrite Hf, Hs in Hrun.
  destruct rows as [|row0 rest]; [discriminate|].
  eexists _, row0. split; [exact Hrun|]. split; [reflexivity|].
  set (w1 := push _ s' w).
  assert (Hd1 : frames w1 !! df = Some d) by exact Hd.
  rewrite (translate_column_trace generate df col w1 d _ Hd1 Hcol).
  change (safety_global w1) with (safety_global w).
  change (service w1) with s'.
  rewrite requests_app, requests_loop_trace.
  assert (requests
            match failed (serve generate (safety_global w) s' (row0 :: rest)) with
            | Some _ => []
            | None => [Notify Final (length (row0 :: rest))]
            end = []) as ->.
  { destruct (failed (serve generate (safety_global w) s' (row0 :: rest)));
      reflexivity. }
  rewrite app_nil_r. split; [|reflexivity].
  pose proof (started_pos (safety_global w) s' row0 rest) as Hpos.
  destruct (started (serve generate (safety_global w) s' (row0 :: rest)));
    [lia | reflexivity].
Qed.

End Driver.

(** ** Concrete runs of the driver cells and of the edge cases *)

Lemma translate_column_unknown_column_witness :
  translate_column (Mock.model None) 1 "comment" (Mock.start Mock.rows3)
  = (inl (KeyError (u8 "comment")), Mock.start Mock.rows3).
Proof.
  apply (translate_column_unknown_column (Mock.model None) 1%positive "comment"
           (Mock.start Mock.rows3) (Mock.frame_of Mock.rows3)).
  - reflexivity.
  - reflexivity.
Defined.

Lemma printed_lines_witness :
  let w := Mock.start (replicate 231 Mock.comment) in
  stdout (since w (snd (translate_column (Mock.model None) 1 "comment_text" w)))
  = ["Successful translation: 100"; "Successful translation: 200";
     "Successful translation: 231"].
Proof.
  intros w.
  etransitivity.
  - apply (printed_lines (Mock.model None) 1%positive "comment_text" w
             (Mock.frame_of (replicate 231 Mock.comment))
             (replicate 231 Mock.comment)).
    + reflexivity.
    + unfold unique_labels. apply (bool_decide_unpack _). vm_compute. exact I.
    + reflexivity.
  - vm_compute. reflexivity.
Defined.

Lemma translate_cell_abort_witness :
  let w := Mock.start Mock.rows3 in
  fst (translate_cell (Mock.model (Some 1)) 1 w) = inl Mock.quota
  /\ frames (snd (translate_cell (Mock.model (Some 1)) 1 w)) !! 1%positive
     = Some (Mock.frame_of Mock.rows3)
  /\ length (requests (since w (snd (translate_cell (Mock.model (Some 1)) 1 w))))
     = 2.
Proof.
  intros w.
  destruct (translate_cell_abort (Mock.model (Some 1)) 1%positive w
              (Mock.frame_of Mock.rows3) Mock.rows3 1 Mock.odd 2 Mock.quota)
    as (Hres & Hfr & Hlen & _).
  - reflexivity.
  - unfold unique_labels. apply (bool_decide_unpack _). vm_compute. exact I.
  - reflexivity.
  - reflexivity.
  - vm_compute. reflexivity.
  - vm_compute. reflexivity.
  - auto.
Defined.

Lemma translate_cell_success_witness :
  let w := Mock.start Mock.rows3 in
  fst (translate_cell (Mock.model None) 1 w) = inr tt
  /\ exists d' column,
       frames (snd (translate_cell (Mock.model None) 1 w)) !! 1%positive
       = Some d'
       /\ df_wf d'
       /\ get_column (df_columns d') "english_comment_text" = Some column
       /\ length column = 3.
Proof.
  intros w.
  destruct (translate_cell_success (Mock.model None) 1%positive w
              (Mock.frame_of Mock.rows3) Mock.rows3)
    as (Hres & d' & column & Hfr & _ & Hwf & _ & Hcol & Hlen & _).
  - reflexivity.
  - split; [unfold unique_labels; apply (bool_decide_unpack _); vm_compute; exact I|].
    vm_compute. repeat constructor.
  - reflexivity.
  - vm_compute. reflexivity.
  - split; [exact Hres|]. exists d', column. auto.
Defined.

Lemma translate_cell_shape_witness :
  let w := Mock.start Mock.rows3 in
  exists d',
    frames (snd (translate_cell (Mock.model None) 1 w)) !! 1%positive = Some d'
    /\ map fst (df_columns d') = ["id"; "comment_text"; "english_comment_text"]
    /\ shape d' = (3, 3).
Proof.
  intros w.
  destruct (translate_cell_shape (Mock.model None) 1%positive w
              (Mock.frame_of Mock.rows3) Mock.rows3)
    as (d' & Hfr & Hnames & Hshape).
  - reflexivity.
  - split; [unfold unique_labels; apply (bool_decide_unpack _); vm_compute; exact I|].
    vm_compute. repeat constructor.
  - reflexivity.
  - vm_compute. reflexivity.
  - exists d'. split; [exact Hfr|]. split; [exact Hnames | exact Hshape].
Defined.

Lemma show_cell_after_translation_witness :
  let w := Mock.start Mock.rows3 in
  show_cell Mock.not_in_index 1 w
  = (inl (KeyError (Mock.not_in_index ["comment_text"; "english_comment_text"]
                                      ["english_comment_text"])), w)
  /\ exists shown,
       fst (show_cell Mock.not_in_index 1
                      (snd (translate_cell (Mock.model None) 1 w)))
       = inr shown
       /\ map fst (df_columns shown) = ["comment_text"; "english_comment_text"].
Proof.
  intros w.
  destruct (show_cell_after_translation (Mock.model None) Mock.not_in_index
              1%positive w (Mock.frame_of Mock.rows3) Mock.rows3)
    as (Hbefore & Hafter).
  - reflexivity.
  - split; [unfold unique_labels; apply (bool_decide_unpack _); vm_compute; exact I|].
    vm_compute. repeat constructor.
  - reflexivity.
  - reflexivity.
  - vm_compute. reflexivity.
  - split; [exact Hbefore|]. eexists. rewrite Hafter. split; reflexivity.
Defined.

Lemma second_call_starts_over_witness :
  let w := Mock.start Mock.rows3 in
  exists w1,
    translate_column (Mock.model (Some 1)) 1 "comment_text" w
    = (inl Mock.quota, w1)
    /\ length (requests (since w1 (snd (translate_column (Mock.model (Some 1)) 1
                                                         "comment_text" w1))))
       = 3.
Proof.
  intros w.
  destruct (second_call_starts_over (Mock.model (Some 1)) 1%positive
              "comment_text" w (Mock.frame_of Mock.rows3) Mock.rows3
              1 Mock.odd 2 Mock.quota)
    as (w1 & row0 & Hrun & _ & _ & Hreq).
  - reflexivity.
  - unfold unique_labels. apply (bool_decide_unpack _). vm_compute. exact I.
  - reflexivity.
  - reflexivity.
  - vm_compute. reflexivity.
  - vm_compute. reflexivity.
  - exists w1. split; [exact Hrun|]. rewrite Hreq. vm_compute. reflexivity.
Defined.

Lemma blank_response_is_stored_witness :
  fst (loop_body Mock.blank Mock.comment ([], 0) (Mock.start Mock.rows3))
  = inr ([[]], 1).
Proof.
  apply (blank_response_is_stored Mock.blank Mock.comment [] 0
           (Mock.start Mock.rows3) 1 [32; 9; 10; 160]%N).
  - vm_compute. reflexivity.
  - repeat constructor.
Defined.

(** ** The loop counter *)

(** X10.  The loop keeps [successful_translation] equal to the length of
    [translated_texts]: entered with the two in step, it ends, when no
    request raised, with the two in step, having added one value per row to
    the list it started from. *)
Theorem counter_is_length
    {S_ : Type} (generate : S_ -> list N -> list SafetySetting -> S_ * reply)
    (rows : list cell) (acc acc' : list (list N)) (n' : nat) (w w' : world S_) :
  for_each generate rows (acc, length acc) w = (inr (acc', n'), w') ->
  n' = length acc'
  /\ length acc' = length acc + length rows
  /\ take (length acc) acc' = acc.
Proof.
  rewrite (for_each_run generate rows acc (length acc) w eq_refl).
  destruct (failed _) eqn:Hf; [discriminate|].
  intros [= <- <- _].
  rewrite length_app, length_map, (serve_ok_length _ _ _ _ Hf).
  repeat split. apply take_app_length.
Qed.

Lemma counter_is_length_witness :
  match fst (for_each (Mock.model None) Mock.rows3 ([], 0)
                      (Mock.start Mock.rows3)) with
  | inr (acc', n') => n' = length acc' /\ length acc' = 3
  | inl _ => False
  end.
Proof.
  destruct (for_each (Mock.model None) Mock.rows3 ([], 0)
                     (Mock.start Mock.rows3))
    as [[e|[acc' n']] w'] eqn:Hrun; cbn [fst].
  - vm_compute in Hrun. discriminate.
  - destruct (counter_is_length (Mock.model None) Mock.rows3 [] acc' n'
                (Mock.start Mock.rows3) w' Hrun)
      as (Hn & Hlen & _).
    split; [exact Hn | exact Hlen].
Defined.
